(** * cycle-counter: the kernel module [cyccnt.c] and the benchmark
      driver [test_cycle.c], embedded and verified.

    The kernel module programs a handful of system registers on every CPU;
    it is modelled as a small state monad over a register file and an
    event trace.  The driver is modelled as a function from its command
    line (and the readings of the hardware counter) to its outcome. *)

From Stdlib Require Import ZArith Floats Sorted Permutation.
From stdpp Require Import base tactics option numbers functions list sorting strings.

Local Open Scope Z_scope.

(** The newline character of the C string literals. *)
Definition nl : string := String (Ascii.ascii_of_nat 10) EmptyString.

(** [BIT(n)] of the kernel headers: [1UL << n]. *)
Definition BIT (n : Z) : Z := Z.shiftl 1 n.

(** [GENMASK(h, l)] of the kernel headers: bits [l] to [h], both included. *)
Definition GENMASK (h l : Z) : Z := Z.shiftl (Z.ones (h - l + 1)) l.

(** ** A state monad, shared by the two architectures of [cyccnt.c] *)

Definition State (S A : Type) : Type := S → A * S.

#[global] Instance State_ret {S} : MRet (State S) := λ A a s, (a, s).
#[global] Instance State_bind {S} : MBind (State S) :=
  λ A B f m s, let '(a, s') := m s in f a s'.

Definition exec {S A} (m : State S A) (s : S) : S := snd (m s).

(** [on_each_cpu(func, NULL, 1)]: [func] runs once on every online CPU, on
    that CPU's own registers, and the call returns when all have run. *)
Definition on_each_cpu {S} (func : State S unit) (cpus : list S) : list S :=
  exec func <$> cpus.

(** ** [cyccnt.c], [#if defined(__aarch64__)] *)

Module Aarch64.

(** The system registers the module names in its [msr]/[mrs] instructions. *)
Inductive sysreg : Set :=
| PMINTENCLR_EL1
| PMCNTENSET_EL0
| PMUSERENR_EL0
| PMCR_EL0
| PMCCFILTR_EL0.

#[global] Instance sysreg_eq_dec : EqDecision sysreg.
Proof. solve_decision. Defined.

(** What one CPU does, in program order. *)
Inductive event : Type :=
| Printk (fmt : string) (args : list Z)
| Msr (r : sysreg) (v : Z)
| Mrs (r : sysreg) (v : Z)
| Isb.

(** One logical processor.  [regs r] is the value last written to [r],
    not what the hardware then holds: PMCNTENSET_EL0 is write-one-to-set,
    PMINTENCLR_EL1 write-one-to-clear, and the C bit of PMCR_EL0 is
    write-only.  The hardware's reaction to a write is outside the model;
    what the code does is read off the [trace]. *)
Record cpu : Type := Cpu {
  cpu_id : Z;
  regs : sysreg → Z;
  trace : list event
}.

Definition emit (e : event) : State cpu unit :=
  λ s, (tt, Cpu (cpu_id s) (regs s) (trace s ++ [e])).

Definition smp_processor_id : State cpu Z := λ s, (cpu_id s, s).

Definition printk (fmt : string) (args : list Z) : State cpu unit :=
  emit (Printk fmt args).

(** [asm volatile("msr r, %0" : : "r" (v))] *)
Definition msr (r : sysreg) (v : Z) : State cpu unit :=
  λ s, (tt, Cpu (cpu_id s) (<[r := v]> (regs s)) (trace s ++ [Msr r v])).

(** [asm volatile("mrs %0, r" : "=r" (x))] *)
Definition mrs (r : sysreg) : State cpu Z :=
  λ s, (regs s r, Cpu (cpu_id s) (regs s) (trace s ++ [Mrs r (regs s r)])).

Definition isb : State cpu unit := emit Isb.

Definition enable_counter : State cpu unit :=
  id ← smp_processor_id;
  printk ("enable pmccntr_el0 on CPU %d" +:+ nl) [id];;
  msr PMINTENCLR_EL1 (BIT 31);;
  msr PMCNTENSET_EL0 (BIT 31);;
  msr PMUSERENR_EL0 (Z.lor (Z.lor (BIT 0) (BIT 2)) (BIT 6));;
  x ← mrs PMCR_EL0;
  let x := Z.lor x (Z.lor (BIT 0) (BIT 2)) in
  isb;;
  msr PMCR_EL0 x;;
  msr PMCCFILTR_EL0 (BIT 27).

Definition disable_counter : State cpu unit :=
  id ← smp_processor_id;
  printk ("disable pmccntr_el0 on CPU %d" +:+ nl) [id];;
  msr PMCNTENSET_EL0 0;;
  msr PMUSERENR_EL0 0.

(** The value the comment above [enable_counter] documents for PMCR_EL0
    (stated from the documentation, to be compared with the code):
    LC (bit 6) 1, DP (bit 5) 0, D (bit 3) 0, C (bit 2) 1, E (bit 0) 1,
    every other bit conserved. *)
Definition pmcr_documented (v : Z) : Z :=
  Z.land (Z.lor v (Z.lor (BIT 6) (Z.lor (BIT 2) (BIT 0))))
         (Z.lnot (Z.lor (BIT 5) (BIT 3))).

(** [init] and [fini], on the online CPUs; [init] returns 0. *)
Definition init (cpus : list cpu) : Z * list cpu :=
  (0, on_each_cpu enable_counter cpus).

Definition fini (cpus : list cpu) : list cpu :=
  on_each_cpu disable_counter cpus.

End Aarch64.

(** ** [cyccnt.c], [#elif defined(__riscv)] *)

Module Riscv.

(** [struct sbiret] of <asm/sbi.h>. *)
Record sbiret : Type := Sbiret { error : Z; value : Z }.

(** Constants of the Linux headers <asm/sbi.h> and <asm/csr.h>. *)
Definition SBI_EXT_PMU : Z := 0x504D55.
Definition SBI_EXT_PMU_COUNTER_START : Z := 3.
Definition SBI_PMU_START_FLAG_SET_INIT_VALUE : Z := BIT 0.
Definition CSR_SCOUNTEREN : Z := 0x106.

(** The arguments of one [sbi_ecall]. *)
Record sbi_call : Type := SbiCall {
  ext : Z; fid : Z;
  arg0 : Z; arg1 : Z; arg2 : Z; arg3 : Z; arg4 : Z; arg5 : Z
}.

Inductive event : Type :=
| Printk (fmt : string) (args : list Z)
| Ecall (c : sbi_call) (r : sbiret)
| CsrWrite (csr : Z) (v : Z).

(** One hart: its CSR file (indexed by CSR number), the machine-level
    firmware that answers its SBI calls, and what it did so far. *)
Record hart : Type := Hart {
  cpu_id : Z;
  firmware : sbi_call → sbiret;
  csrs : Z → Z;
  trace : list event
}.

Definition emit (e : event) : State hart unit :=
  λ s, (tt, Hart (cpu_id s) (firmware s) (csrs s) (trace s ++ [e])).

Definition smp_processor_id : State hart Z := λ s, (cpu_id s, s).

Definition printk (fmt : string) (args : list Z) : State hart unit :=
  emit (Printk fmt args).

Definition sbi_ecall (ext fid a0 a1 a2 a3 a4 a5 : Z) : State hart sbiret :=
  λ s, let c := SbiCall ext fid a0 a1 a2 a3 a4 a5 in
       let r := firmware s c in
       (r, Hart (cpu_id s) (firmware s) (csrs s) (trace s ++ [Ecall c r])).

Definition csr_write (csr v : Z) : State hart unit :=
  λ s, (tt, Hart (cpu_id s) (firmware s) (<[csr := v]> (csrs s))
                 (trace s ++ [CsrWrite csr v])).

(** The one SBI request of [enable_counter]: start counter 0 (the mask is 1
    from base 0), setting its initial value (to 0). *)
Definition start_request : sbi_call :=
  SbiCall SBI_EXT_PMU SBI_EXT_PMU_COUNTER_START
          0 1 SBI_PMU_START_FLAG_SET_INIT_VALUE 0 0 0.

Definition enable_counter : State hart unit :=
  id ← smp_processor_id;
  printk ("enable_rdcycle on CPU %d" +:+ nl) [id];;
  r ← sbi_ecall SBI_EXT_PMU SBI_EXT_PMU_COUNTER_START
                0 1 SBI_PMU_START_FLAG_SET_INIT_VALUE 0 0 0;
  id ← smp_processor_id;
  printk ("CPU %d: sbi_ecall() returned %ld, %ld" +:+ nl)
         [id; error r; value r];;
  csr_write CSR_SCOUNTEREN (GENMASK 31 0).

Definition disable_counter : State hart unit :=
  id ← smp_processor_id;
  printk ("disable_rdcycle on CPU %d" +:+ nl) [id];;
  csr_write CSR_SCOUNTEREN 0x2.

(** [init] and [fini], on the online harts; [init] returns 0. *)
Definition init (harts : list hart) : Z * list hart :=
  (0, on_each_cpu enable_counter harts).

Definition fini (harts : list hart) : list hart :=
  on_each_cpu disable_counter harts.

(** How many SBI requests a trace holds. *)
Definition is_ecall (e : event) : bool :=
  match e with Ecall _ _ => true | _ => false end.

Definition ecalls (t : list event) : nat :=
  length (filter (λ e, is_ecall e = true) t).

End Riscv.

(** ** [test_cycle.c] *)

Module TestCycle.

(** Conversion to [uint32_t] and to [uint64_t]: reduction modulo 2^32, 2^64. *)
Definition u32 (z : Z) : Z := z mod 2 ^ 32.
Definition u64 (z : Z) : Z := z mod 2 ^ 64.

Definition cmp_u64 (x1 x2 : Z) : Z :=
  if x1 <? x2 then -1
  else if x1 =? x2 then 0
  else 1.

(** [for (i = i0; i < i0 + n; i ++) s = f i s]. *)
Fixpoint for_from {T : Type} (i0 n : nat) (f : nat → T → T) (s : T) : T :=
  match n with
  | O => s
  | S n' => for_from (S i0) n' f (f i0 s)
  end.

(** *** The multiplied variables and the statements of the timed loops *)

Record vars : Type := Vars {
  x32 : Z; y32 : Z;
  x64 : Z; y64 : Z;
  x64orig : Z; y64orig : Z
}.

Inductive stmt : Set :=
| X32_mul_Y32      (* x32 *= y32; *)
| Y32_mul_X32      (* y32 *= x32; *)
| X64_mul_Y64      (* x64 *= y64; *)
| Y64_mul_X64      (* y64 *= x64; *)
| X64_xor_orig     (* x64 ^= x64orig; *)
| Y64_xor_orig     (* y64 ^= y64orig; *)
| X64_mulhi_Y64    (* x64 = ((unsigned __int128)x64 * y64) >> 64; *)
| Y64_mulhi_X64.   (* y64 = ((unsigned __int128)y64 * x64) >> 64; *)

(** The upper half of the 128-bit product of two [uint64_t]. *)
Definition mulhi (a b : Z) : Z := u64 (Z.shiftr ((a * b) mod 2 ^ 128) 64).

Definition exec_stmt (c : stmt) (v : vars) : vars :=
  let 'Vars x32 y32 x64 y64 xo yo := v in
  match c with
  | X32_mul_Y32 => Vars (u32 (x32 * y32)) y32 x64 y64 xo yo
  | Y32_mul_X32 => Vars x32 (u32 (y32 * x32)) x64 y64 xo yo
  | X64_mul_Y64 => Vars x32 y32 (u64 (x64 * y64)) y64 xo yo
  | Y64_mul_X64 => Vars x32 y32 x64 (u64 (y64 * x64)) xo yo
  | X64_xor_orig => Vars x32 y32 (Z.lxor x64 xo) y64 xo yo
  | Y64_xor_orig => Vars x32 y32 x64 (Z.lxor y64 yo) xo yo
  | X64_mulhi_Y64 => Vars x32 y32 (mulhi x64 y64) y64 xo yo
  | Y64_mulhi_X64 => Vars x32 y32 x64 (mulhi y64 x64) xo yo
  end.

Definition exec_block (b : list stmt) (v : vars) : vars :=
  foldl (λ v c, exec_stmt c v) v b.

Definition is_mul (c : stmt) : bool :=
  match c with
  | X64_xor_orig | Y64_xor_orig => false
  | _ => true
  end.

(** The number of multiplications one pass over a block performs. *)
Definition muls (b : list stmt) : nat := length (filter (λ c, is_mul c = true) b).

(** The bodies of the three inner loops, statement by statement. *)
Definition body32 : list stmt :=
  [ X32_mul_Y32; Y32_mul_X32; X32_mul_Y32; Y32_mul_X32;
    X32_mul_Y32; Y32_mul_X32; X32_mul_Y32; Y32_mul_X32;
    X32_mul_Y32; Y32_mul_X32; X32_mul_Y32; Y32_mul_X32;
    X32_mul_Y32; Y32_mul_X32; X32_mul_Y32; Y32_mul_X32;
    X32_mul_Y32; Y32_mul_X32; X32_mul_Y32; Y32_mul_X32 ].

Definition body64 : list stmt :=
  [ X64_mul_Y64; Y64_mul_X64; X64_mul_Y64; Y64_mul_X64;
    X64_mul_Y64; Y64_mul_X64; X64_mul_Y64; Y64_mul_X64;
    X64_mul_Y64; Y64_mul_X64; X64_mul_Y64; Y64_mul_X64;
    X64_mul_Y64; Y64_mul_X64; X64_mul_Y64; Y64_mul_X64;
    X64_mul_Y64; Y64_mul_X64; X64_mul_Y64; Y64_mul_X64 ].

Definition body128 : list stmt :=
  [ X64_xor_orig; Y64_xor_orig;
    X64_mulhi_Y64; Y64_mulhi_X64; X64_mulhi_Y64; Y64_mulhi_X64;
    X64_mulhi_Y64; Y64_mulhi_X64; X64_mulhi_Y64; Y64_mulhi_X64 ].

(** [uint32_t x32 = (uint32_t)st; uint32_t y32 = x32;] *)
Definition decl32 (st : Z) (v : vars) : vars :=
  let 'Vars _ _ x64 y64 xo yo := v in
  Vars (u32 st) (u32 st) x64 y64 xo yo.

(** [x32 = y32;] *)
Definition x32_gets_y32 (v : vars) : vars :=
  let 'Vars _ y32 x64 y64 xo yo := v in
  Vars y32 y32 x64 y64 xo yo.

(** Lines 114 to 119: the start of the 32-bit chain. *)
Definition init32 (st : Z) (v : vars) : vars :=
  x32_gets_y32 (for_from 0 100 (λ _, exec_stmt Y32_mul_X32) (decl32 st v)).

(** [uint64_t x64 = (uint64_t)x32; x64 *= x64 * x64; uint64_t y64 = x64;] *)
Definition init64 (v : vars) : vars :=
  let 'Vars x32 y32 _ _ xo yo := v in
  let x64 := x32 in
  let x64 := u64 (x64 * u64 (x64 * x64)) in
  let y64 := x64 in
  Vars x32 y32 x64 y64 xo yo.

(** [uint64_t t64 = (uint64_t)((y64 >> 1) != 0) << 63; x64 |= t64;
     y64 |= t64; uint64_t x64orig = x64; uint64_t y64orig = y64;] *)
Definition init128 (v : vars) : vars :=
  let 'Vars x32 y32 x64 y64 _ _ := v in
  let t64 := u64 (Z.shiftl (if Z.shiftr y64 1 =? 0 then 0 else 1) 63) in
  let x64 := Z.lor x64 t64 in
  let y64 := Z.lor y64 t64 in
  Vars x32 y32 x64 y64 x64 y64.

(** *** The values a chain goes through

    The states reached after each statement of a block, and of a loop over
    it; these observe the execution and are not part of the program. *)

Fixpoint block_chain (b : list stmt) (v : vars) : list vars :=
  match b with
  | [] => []
  | c :: b' => exec_stmt c v :: block_chain b' (exec_stmt c v)
  end.

Fixpoint loop_chain (n : nat) (chain : vars → list vars) (step : vars → vars)
    (v : vars) : list vars :=
  match n with
  | O => []
  | S n' => chain v ++ loop_chain n' chain step (step v)
  end.

(** One execution of the inner loop, [for (int j = 0; j < 1000; j ++) body]. *)
Definition inner (body : list stmt) (v : vars) : vars :=
  for_from 0 1000 (λ _, exec_block body) v.

Definition inner_chain (body : list stmt) (v : vars) : list vars :=
  loop_chain 1000 (block_chain body) (exec_block body) v.

(** The 120 executions of the inner loop, the counter left aside. *)
Definition churn (body : list stmt) (v : vars) : vars :=
  for_from 0 120 (λ _, inner body) v.

(** Every state of the timed loop over [body], from its entry on. *)
Definition churn_chain (body : list stmt) (v : vars) : list vars :=
  v :: loop_chain 120 (inner_chain body) (inner body) v.

(** *** The counter and the sample buffer *)

Record harness : Type := Harness {
  tt : list Z;        (* uint64_t tt[100] *)
  reads : nat         (* how many times core_cycles() has run so far *)
}.

(** The final byte: lines 225 to 230. *)
Definition final_byte (x64 : Z) : Z :=
  let '(x, _) :=
    for_from 0 8 (λ _ '(x, x64), (Z.lxor x (u32 x64), Z.shiftr x64 8)) (0, x64) in
  Z.land x 0xFF.

(** Byte [i] of [x], byte 0 being the least significant. *)
Definition byte_of (x i : Z) : Z := Z.land (Z.shiftr x (8 * i)) 0xFF.

(** [(double)t] for an unsigned 64-bit [t]: the nearest binary64, ties to even. *)
Definition double_of_u64 (t : Z) : float :=
  SF2Prim (binary_normalize 53 1024 t 0 false).

(** The arguments the driver passes to [printf] after the format. *)
Inductive printf_arg : Set :=
| ArgDouble (d : float)
| ArgUnsigned (u : Z).

(** One call of [printf] or [fprintf]: the format and the arguments. *)
Definition call : Set := string * list printf_arg.

Record outcome : Type := Outcome {
  exit_status : Z;
  stdout : list call;
  stderr : list call;
  counter_reads : nat;
  medians : list Z;          (* tt[50] after each qsort *)
  last_x64 : option Z        (* x64 as line 225 finds it, when reached *)
}.

(** The variables before line 114; the 64-bit ones are declared later and
    assigned before they are read. *)
Definition fresh_vars : vars := Vars 0 0 0 0 0 0.

(** [EXIT_FAILURE] of <stdlib.h>. *)
Definition EXIT_FAILURE : Z := 1.

Section driver.

(** The hardware counter: [clock n] is what the [n]-th read returns. *)
Variable clock : nat → Z.
(** The C library. *)
Variable atoi : string → Z.
Variable qsort : (Z → Z → Z) → list Z → list Z.
(** What the stack holds where [tt] is allocated. *)
Variable garbage : nat → Z.
(** Whether the build has [unsigned __int128] (the [#if] of line 188). *)
Variable has_int128 : bool.

Definition core_cycles : State harness Z :=
  λ h, (u64 (clock (reads h)), Harness (tt h) (S (reads h))).

(** One iteration of the outer loop, lines 121 to 147 (and 157 to 183,
    200 to 216, which differ in the body only). *)
Definition iteration (body : list stmt) (i : nat) (s : vars * harness)
    : vars * harness :=
  let '(v, h) := s in
  let '(begin, h) := core_cycles h in
  let v := inner body v in
  let '(end_, h) := core_cycles h in
  let h := if (20 <=? i)%nat
           then Harness (<[(i - 20)%nat := u64 (end_ - begin)]> (tt h)) (reads h)
           else h in
  (v, h).

Definition measure (body : list stmt) (s : vars * harness) : vars * harness :=
  for_from 0 120 (iteration body) s.

(** [qsort(tt, 100, sizeof(uint64_t), &cmp_u64)] *)
Definition sort_tt (h : harness) : harness :=
  Harness (qsort cmp_u64 (take 100 (tt h)) ++ drop 100 (tt h)) (reads h).

(** [(double)tt[50] / d] *)
Definition per_op (h : harness) (d : float) : float :=
  PrimFloat.div (double_of_u64 (tt h !!! 50%nat)) d.

Definition usage : call :=
  ("usage: test_cycle [ 0 | 1 | 3 ]" +:+ nl, []).

(** [main] from line 109 on, [st] being the value of [atoi(argv[1])]. *)
Definition run (st : Z) : outcome :=
  let h := Harness (garbage <$> seq 0 100) 0 in
  let v := fresh_vars in
  (* 32-bit multiplications *)
  let v := init32 st v in
  let '(v, h) := measure body32 (v, h) in
  let h := sort_tt h in
  let m32 := tt h !!! 50%nat in
  let out := [("32x32->32 muls:  %7.3f" +:+ nl, [ArgDouble (per_op h 20000)])] in
  (* 64-bit multiplications *)
  let v := init64 v in
  let '(v, h) := measure body64 (v, h) in
  let h := sort_tt h in
  let m64 := tt h !!! 50%nat in
  let out := out ++
    [("64x64->64 muls:  %7.3f" +:+ nl, [ArgDouble (per_op h 20000)])] in
  (* 64x64->128 multiplications *)
  let '(v, h, out, ms) :=
    if has_int128 then
      let v := init128 v in
      let '(v, h) := measure body128 (v, h) in
      let h := sort_tt h in
      (v, h,
       out ++ [("64x64->128 muls: %7.3f" +:+ nl, [ArgDouble (per_op h 8000)])],
       [m32; m64; tt h !!! 50%nat])
    else (v, h, out, [m32; m64]) in
  let out := out ++
    [("(%u)" +:+ nl, [ArgUnsigned (final_byte (x64 v))])] in
  Outcome 0 out [] (reads h) ms (Some (x64 v)).

Definition main (argv : list string) : outcome :=
  if negb (length argv =? 2)%nat then
    Outcome EXIT_FAILURE [] [usage] 0 [] None
  else
    run (atoi (argv !!! 1%nat)).

End driver.

(** The floating-point values a run printed, in order. *)
Definition printed_doubles (o : outcome) : list float :=
  c ← stdout o;
  omap (λ a, match a with ArgDouble d => Some d | ArgUnsigned _ => None end) c.2.

(** The timed loops a build contains, in order. *)
Definition workloads (has_int128 : bool) : list (list stmt) :=
  [body32; body64] ++ (if has_int128 then [body128] else []).

(** Cycles per operation as the text defines it: the median [m] over the
    inner repetition count times the operations of one inner iteration. *)
Definition cycles_per_op (m : Z) (body : list stmt) : float :=
  PrimFloat.div (double_of_u64 m)
                (double_of_u64 (1000 * Z.of_nat (muls body))).

(** The sample the [i]-th outer iteration of a loop takes, when the loop
    starts after [r0] reads of the counter. *)
Definition delta (clock : nat → Z) (r0 i : nat) : Z :=
  u64 (u64 (clock (r0 + 2 * i + 1)%nat) - u64 (clock (r0 + 2 * i)%nat)).

(** The samples a timed loop keeps when it starts after [r0] reads: of the
    120 it takes, all but the first 20. *)
Definition kept (clock : nat → Z) (r0 : nat) : list Z :=
  drop 20 (delta clock r0 <$> seq 0 120).

(** What the contract of the C library's [qsort] says of a sorting
    function: for a comparison that is total and transitive, the result is
    a rearrangement of the input in which no element compares greater than
    its successor. *)
Definition qsort_contract (qsort : (Z → Z → Z) → list Z → list Z) : Prop :=
  ∀ cmp : Z → Z → Z,
    (∀ a b, cmp a b ≤ 0 ∨ cmp b a ≤ 0) →
    (∀ a b c, cmp a b ≤ 0 → cmp b c ≤ 0 → cmp a c ≤ 0) →
    ∀ l, qsort cmp l ≡ₚ l ∧ Sorted (λ a b, cmp a b ≤ 0) (qsort cmp l).

(** A sorting function that meets the contract: insertion sort. *)
Fixpoint insert_sorted (cmp : Z → Z → Z) (x : Z) (l : list Z) : list Z :=
  match l with
  | [] => [x]
  | y :: l' => if cmp x y <=? 0 then x :: l else y :: insert_sorted cmp x l'
  end.

Definition insertion_sort (cmp : Z → Z → Z) (l : list Z) : list Z :=
  foldr (insert_sorted cmp) [] l.

(** *** The chains of a run, by seed *)

(** The variables on entry to each of the three timed loops. *)
Definition start32 (st : Z) : vars := init32 st fresh_vars.
Definition start64 (st : Z) : vars := init64 (churn body32 (start32 st)).
Definition start128 (st : Z) : vars := init128 (churn body64 (start64 st)).

(** Every state of the 32-bit chain: the 100 multiplications of lines 116
    to 118, then the timed loop. *)
Definition chain32 (st : Z) : list vars :=
  (decl32 st fresh_vars ::
     loop_chain 100 (block_chain [Y32_mul_X32]) (exec_stmt Y32_mul_X32)
                (decl32 st fresh_vars))
  ++ churn_chain body32 (start32 st).

Definition chain64 (st : Z) : list vars := churn_chain body64 (start64 st).

Definition chain128 (st : Z) : list vars := churn_chain body128 (start128 st).

(** [P] holds of both variables of the chain, in every state of [l]. *)
Definition all32 (P : Z → Prop) (l : list vars) : Prop :=
  Forall (λ v, P (x32 v) ∧ P (y32 v)) l.

Definition all64 (P : Z → Prop) (l : list vars) : Prop :=
  Forall (λ v, P (x64 v) ∧ P (y64 v)) l.


Definition odd (z : Z) : Prop := Z.odd z = true.





(** Another sorting function that meets the contract: merge sort. *)
Definition merge_qsort (cmp : Z → Z → Z) (l : list Z) : list Z :=
  @merge_sort Z (λ a b, cmp a b ≤ 0) (λ a b, decide (cmp a b ≤ 0)) l.

(** The statements one execution of the inner loop runs, in order: 1000
    times those of the body. *)
Definition inner_stmts (body : list stmt) : list stmt :=
  mjoin (replicate 1000 body).

End TestCycle.

(** ** [cyccnt.c]: what the two sequences do *)

Section aarch64_facts.
Import Aarch64.
Variable s : cpu.

Lemma enable_counter_regs r :
  regs (exec enable_counter s) r =
    match r with
    | PMINTENCLR_EL1 => BIT 31
    | PMCNTENSET_EL0 => BIT 31
    | PMUSERENR_EL0 => 69
    | PMCR_EL0 => Z.lor (regs s PMCR_EL0) 5
    | PMCCFILTR_EL0 => BIT 27
    end.
Proof. destruct r; reflexivity. Qed.

Lemma enable_counter_trace :
  trace (exec enable_counter s) =
    trace s ++
    [ Printk ("enable pmccntr_el0 on CPU %d" +:+ nl) [cpu_id s];
      Msr PMINTENCLR_EL1 (BIT 31);
      Msr PMCNTENSET_EL0 (BIT 31);
      Msr PMUSERENR_EL0 69;
      Mrs PMCR_EL0 (regs s PMCR_EL0);
      Isb;
      Msr PMCR_EL0 (Z.lor (regs s PMCR_EL0) 5);
      Msr PMCCFILTR_EL0 (BIT 27) ].
Proof.
  unfold exec, enable_counter, mbind, State_bind, msr, mrs, isb, printk,
    emit, smp_processor_id; simpl.
  repeat rewrite <- app_assoc. reflexivity.
Qed.

Lemma disable_counter_regs r :
  regs (exec disable_counter s) r =
    match r with
    | PMCNTENSET_EL0 | PMUSERENR_EL0 => 0
    | _ => regs s r
    end.
Proof. destruct r; reflexivity. Qed.

Lemma disable_counter_trace :
  trace (exec disable_counter s) =
    trace s ++
    [ Printk ("disable pmccntr_el0 on CPU %d" +:+ nl) [cpu_id s];
      Msr PMCNTENSET_EL0 0;
      Msr PMUSERENR_EL0 0 ].
Proof.
  unfold exec, disable_counter, mbind, State_bind, msr, printk, emit,
    smp_processor_id; simpl.
  repeat rewrite <- app_assoc. reflexivity.
Qed.

End aarch64_facts.

Section riscv_facts.
Import Riscv.
Variable s : hart.

Lemma riscv_enable_counter_trace :
  trace (exec enable_counter s) =
    trace s ++
    [ Printk ("enable_rdcycle on CPU %d" +:+ nl) [cpu_id s];
      Ecall start_request (firmware s start_request);
      Printk ("CPU %d: sbi_ecall() returned %ld, %ld" +:+ nl)
             [cpu_id s; error (firmware s start_request);
              value (firmware s start_request)];
      CsrWrite CSR_SCOUNTEREN (GENMASK 31 0) ].
Proof.
  unfold exec, enable_counter, mbind, State_bind, sbi_ecall, csr_write,
    printk, emit, smp_processor_id; simpl.
  repeat rewrite <- app_assoc. reflexivity.
Qed.

Lemma riscv_enable_counter_csrs r :
  csrs (exec enable_counter s) r =
    if decide (r = CSR_SCOUNTEREN) then GENMASK 31 0 else csrs s r.
Proof.
  unfold exec, enable_counter, mbind, State_bind, sbi_ecall, csr_write,
    printk, emit, smp_processor_id; simpl.
  destruct (decide (r = CSR_SCOUNTEREN)) as [->|Hr].
  - apply fn_lookup_insert.
  - apply fn_lookup_insert_ne. congruence.
Qed.

Lemma riscv_disable_counter_trace :
  trace (exec disable_counter s) =
    trace s ++
    [ Printk ("disable_rdcycle on CPU %d" +:+ nl) [cpu_id s];
      CsrWrite CSR_SCOUNTEREN 2 ].
Proof.
  unfold exec, disable_counter, mbind, State_bind, csr_write, printk, emit,
    smp_processor_id; simpl.
  repeat rewrite <- app_assoc. reflexivity.
Qed.

Lemma riscv_disable_counter_csrs r :
  csrs (exec disable_counter s) r =
    if decide (r = CSR_SCOUNTEREN) then 2 else csrs s r.
Proof.
  unfold exec, disable_counter, mbind, State_bind, csr_write, printk, emit,
    smp_processor_id; simpl.
  destruct (decide (r = CSR_SCOUNTEREN)) as [->|Hr].
  - apply fn_lookup_insert.
  - apply fn_lookup_insert_ne. congruence.
Qed.

End riscv_facts.

(** *** The claims on the kernel module *)

(** C1.  The claim: whatever PMCR_EL0 holds, [enable_counter] writes it back
    with LC (bit 6) set, DP and D (bits 5 and 3) cleared, C (bit 2) and E
    (bit 0) set, every other bit kept, an [isb] standing between the read
    and the write.  The code does read, fence and write in that order, but
    the value it writes is the one read with bits 0 and 2 set and nothing
    else changed: bit 6 is never set and bits 5 and 3 are never cleared.
    From PMCR_EL0 = 0x28 it writes 0x2D where the documented value is
    0x45. *)
Theorem enable_counter_pmcr_el0 :
  (∀ s : Aarch64.cpu,
      let v := Aarch64.regs s Aarch64.PMCR_EL0 in
      Aarch64.regs (exec Aarch64.enable_counter s) Aarch64.PMCR_EL0
        = Z.lor v (Z.lor (BIT 0) (BIT 2))
      ∧ ∃ before after,
          Aarch64.trace (exec Aarch64.enable_counter s) =
            before ++
            [ Aarch64.Mrs Aarch64.PMCR_EL0 v; Aarch64.Isb;
              Aarch64.Msr Aarch64.PMCR_EL0 (Z.lor v (Z.lor (BIT 0) (BIT 2))) ]
            ++ after)
  ∧ (let s := Aarch64.Cpu 0 (λ _, 0x28) [] in
     Aarch64.regs (exec Aarch64.enable_counter s) Aarch64.PMCR_EL0 = 0x2D
     ∧ Aarch64.pmcr_documented (Aarch64.regs s Aarch64.PMCR_EL0) = 0x45).
Proof.
  split.
  - intros s v. split.
    + apply (enable_counter_regs s Aarch64.PMCR_EL0).
    + eexists (Aarch64.trace s ++ [_; _; _; _]), [_].
      rewrite enable_counter_trace, <- app_assoc. reflexivity.
  - split; reflexivity.
Qed.

(** C4.  Deactivation writes the counter-enable-set and the user-enable
    registers, both with zero, on aarch64, and the supervisor counter-enable
    register, with 2 (the timer bit alone), on RISC-V; it makes no SBI
    request, and every other register keeps the value it had: after
    [enable_counter] then [disable_counter], the control register, the
    event filter and the interrupt-clear register are as [enable_counter]
    left them. *)
Theorem disable_counter_frame :
  (∀ (s : Aarch64.cpu) (r : Aarch64.sysreg),
      Aarch64.regs (exec Aarch64.disable_counter s) r =
        if decide (r = Aarch64.PMCNTENSET_EL0 ∨ r = Aarch64.PMUSERENR_EL0)
        then 0 else Aarch64.regs s r)
  ∧ (∀ s : Aarch64.cpu,
      let on := exec Aarch64.enable_counter s in
      let off := exec Aarch64.disable_counter on in
      Aarch64.regs off Aarch64.PMCR_EL0 = Aarch64.regs on Aarch64.PMCR_EL0
      ∧ Aarch64.regs off Aarch64.PMCCFILTR_EL0 = BIT 27
      ∧ Aarch64.regs off Aarch64.PMINTENCLR_EL1 = BIT 31
      ∧ Aarch64.trace off = Aarch64.trace on ++
          [ Aarch64.Printk ("disable pmccntr_el0 on CPU %d" +:+ nl)
                           [Aarch64.cpu_id s];
            Aarch64.Msr Aarch64.PMCNTENSET_EL0 0;
            Aarch64.Msr Aarch64.PMUSERENR_EL0 0 ])
  ∧ (∀ (s : Riscv.hart) (r : Z),
      Riscv.csrs (exec Riscv.disable_counter s) r =
        if decide (r = Riscv.CSR_SCOUNTEREN) then BIT 1 else Riscv.csrs s r)
  ∧ (∀ s : Riscv.hart,
      Riscv.trace (exec Riscv.disable_counter s) = Riscv.trace s ++
          [ Riscv.Printk ("disable_rdcycle on CPU %d" +:+ nl) [Riscv.cpu_id s];
            Riscv.CsrWrite Riscv.CSR_SCOUNTEREN (BIT 1) ]).
Proof.
  split; [|split; [|split]].
  - intros s r. rewrite disable_counter_regs. destruct r; reflexivity.
  - intros s on off. unfold off.
    rewrite !disable_counter_regs, disable_counter_trace.
    unfold on. rewrite !enable_counter_regs. repeat split; reflexivity.
  - intros s r. apply riscv_disable_counter_csrs.
  - intros s. apply riscv_disable_counter_trace.
Qed.

(** C5.  On RISC-V, whatever the firmware answers to the request (its
    [error] being zero or not), [enable_counter] makes the request to start
    counter 0 with the flag that sets its initial value, then logs the two
    fields of the answer, then writes all of the 32 low bits of the
    supervisor counter-enable register; no answer stops it. *)
Theorem enable_counter_whatever_sbi_returns (s : Riscv.hart) :
  let request :=
    Riscv.SbiCall Riscv.SBI_EXT_PMU Riscv.SBI_EXT_PMU_COUNTER_START
                  0 1 Riscv.SBI_PMU_START_FLAG_SET_INIT_VALUE 0 0 0 in
  let r := Riscv.firmware s request in
  Riscv.trace (exec Riscv.enable_counter s) =
    Riscv.trace s ++
    [ Riscv.Printk ("enable_rdcycle on CPU %d" +:+ nl) [Riscv.cpu_id s];
      Riscv.Ecall request r;
      Riscv.Printk ("CPU %d: sbi_ecall() returned %ld, %ld" +:+ nl)
                   [Riscv.cpu_id s; Riscv.error r; Riscv.value r];
      Riscv.CsrWrite Riscv.CSR_SCOUNTEREN (2 ^ 32 - 1) ]
  ∧ Riscv.csrs (exec Riscv.enable_counter s) Riscv.CSR_SCOUNTEREN = 2 ^ 32 - 1
  ∧ (∀ i, 0 ≤ i < 32 →
       Z.testbit (Riscv.csrs (exec Riscv.enable_counter s) Riscv.CSR_SCOUNTEREN) i
       = true).
Proof.
  intros request r. split; [|split].
  - apply riscv_enable_counter_trace.
  - rewrite riscv_enable_counter_csrs. reflexivity.
  - intros i Hi. rewrite riscv_enable_counter_csrs.
    rewrite decide_True by reflexivity.
    change (GENMASK 31 0) with (Z.ones 32).
    apply Z.ones_spec_low. lia.
Qed.

(** ** [test_cycle.c]: the comparison and the sort *)

Section sorting.
Import TestCycle.

Lemma cmp_u64_compare (a b : Z) :
  cmp_u64 a b = match a ?= b with Lt => -1 | Eq => 0 | Gt => 1 end.
Proof.
  unfold cmp_u64.
  destruct (Z.compare_spec a b) as [E|L|G].
  - subst. rewrite Z.ltb_irrefl, Z.eqb_refl. reflexivity.
  - apply Z.ltb_lt in L. rewrite L. reflexivity.
  - assert ((a <? b) = false) as -> by (apply Z.ltb_ge; lia).
    assert ((a =? b) = false) as -> by (apply Z.eqb_neq; lia).
    reflexivity.
Qed.

Lemma cmp_u64_le (a b : Z) : cmp_u64 a b ≤ 0 ↔ a ≤ b.
Proof.
  rewrite cmp_u64_compare.
  destruct (Z.compare_spec a b); split; intros; lia.
Qed.

Lemma cmp_u64_total (a b : Z) : cmp_u64 a b ≤ 0 ∨ cmp_u64 b a ≤ 0.
Proof. rewrite !cmp_u64_le. lia. Qed.

Lemma cmp_u64_trans (a b c : Z) :
  cmp_u64 a b ≤ 0 → cmp_u64 b c ≤ 0 → cmp_u64 a c ≤ 0.
Proof. rewrite !cmp_u64_le. lia. Qed.

Lemma insert_sorted_perm cmp x l : insert_sorted cmp x l ≡ₚ x :: l.
Proof.
  induction l as [|y l IH]; simpl; [reflexivity|].
  destruct (cmp x y <=? 0); [reflexivity|].
  rewrite IH. apply Permutation_swap.
Qed.

Lemma insert_sorted_hd cmp x y l :
  cmp y x ≤ 0 → HdRel (λ a b, cmp a b ≤ 0) y l →
  HdRel (λ a b, cmp a b ≤ 0) y (insert_sorted cmp x l).
Proof.
  intros Hyx Hl. destruct l as [|z l]; simpl.
  - constructor. exact Hyx.
  - destruct (cmp x z <=? 0); constructor; [exact Hyx|].
    inversion Hl; assumption.
Qed.

Lemma insert_sorted_Sorted cmp x l :
  (∀ a b, cmp a b ≤ 0 ∨ cmp b a ≤ 0) →
  Sorted (λ a b, cmp a b ≤ 0) l →
  Sorted (λ a b, cmp a b ≤ 0) (insert_sorted cmp x l).
Proof.
  intros Htot Hl. induction Hl as [|y l Hl IH Hhd]; simpl.
  - repeat constructor.
  - destruct (cmp x y <=? 0) eqn:E.
    + apply Z.leb_le in E. repeat constructor; assumption.
    + apply Z.leb_gt in E. constructor; [exact IH|].
      apply insert_sorted_hd; [|exact Hhd].
      destruct (Htot x y); [lia|assumption].
Qed.

Lemma insertion_sort_contract : qsort_contract insertion_sort.
Proof.
  intros cmp Htot _ l. unfold insertion_sort. split.
  - induction l as [|x l IH]; simpl; [reflexivity|].
    rewrite insert_sorted_perm, IH. reflexivity.
  - induction l as [|x l IH]; simpl; [constructor|].
    apply insert_sorted_Sorted; assumption.
Qed.

Variable qsort : (Z → Z → Z) → list Z → list Z.
Hypothesis qsort_ok : qsort_contract qsort.

Lemma qsort_cmp_u64 (l : list Z) :
  Sorted Z.le (qsort cmp_u64 l) ∧ qsort cmp_u64 l ≡ₚ l.
Proof.
  destruct (qsort_ok cmp_u64 cmp_u64_total cmp_u64_trans l) as [Hp Hs].
  split; [|exact Hp]. clear Hp.
  induction Hs as [|x l' Hs IH Hhd]; constructor.
  - exact IH.
  - destruct Hhd; constructor. apply cmp_u64_le. assumption.
Qed.

Lemma sort_tt_sorted (h : harness) :
  length (tt h) = 100%nat →
  tt (sort_tt qsort h) = qsort cmp_u64 (tt h)
  ∧ reads (sort_tt qsort h) = reads h.
Proof.
  intros Hlen. unfold sort_tt; simpl.
  rewrite take_ge, drop_ge, app_nil_r by lia. split; reflexivity.
Qed.

End sorting.

(** C10.  [cmp_u64 a b] is -1, 0 or 1 as [a] is below, equal to or above
    [b] (on all integers, so on the unsigned 64-bit ones, nothing being
    subtracted), hence [cmp_u64 a b = - cmp_u64 b a]; and a [qsort] that
    honours its contract, given [cmp_u64], leaves the sample buffer a
    rearrangement of itself in nondecreasing order. *)
Theorem cmp_u64_orders_samples
    (qsort : (Z → Z → Z) → list Z → list Z)
    (Hqsort : TestCycle.qsort_contract qsort)
    (a b : Z) (h : TestCycle.harness)
    (Hlen : length (TestCycle.tt h) = 100%nat) :
  (a < b → TestCycle.cmp_u64 a b = -1)
  ∧ (a = b → TestCycle.cmp_u64 a b = 0)
  ∧ (a > b → TestCycle.cmp_u64 a b = 1)
  ∧ TestCycle.cmp_u64 a b = - TestCycle.cmp_u64 b a
  ∧ Sorted Z.le (TestCycle.tt (TestCycle.sort_tt qsort h))
  ∧ TestCycle.tt (TestCycle.sort_tt qsort h) ≡ₚ TestCycle.tt h.
Proof.
  repeat split.
  - intros L. rewrite cmp_u64_compare.
    apply Z.compare_lt_iff in L. rewrite L. reflexivity.
  - intros E. rewrite cmp_u64_compare.
    apply Z.compare_eq_iff in E. rewrite E. reflexivity.
  - intros G. rewrite cmp_u64_compare.
    unfold Z.gt in G. rewrite G. reflexivity.
  - rewrite !cmp_u64_compare, (Z.compare_antisym a b).
    destruct (a ?= b); reflexivity.
  - destruct (sort_tt_sorted qsort h Hlen) as [-> _].
    apply qsort_cmp_u64, Hqsort.
  - destruct (sort_tt_sorted qsort h Hlen) as [-> _].
    apply qsort_cmp_u64, Hqsort.
Qed.

Lemma cmp_u64_orders_samples_witness :
  let h := TestCycle.Harness (Z.of_nat <$> rev (seq 0 100)) 0 in
  (3 < 5 → TestCycle.cmp_u64 3 5 = -1)
  ∧ (3 = 5 → TestCycle.cmp_u64 3 5 = 0)
  ∧ (3 > 5 → TestCycle.cmp_u64 3 5 = 1)
  ∧ TestCycle.cmp_u64 3 5 = - TestCycle.cmp_u64 5 3
  ∧ Sorted Z.le (TestCycle.tt (TestCycle.sort_tt TestCycle.insertion_sort h))
  ∧ TestCycle.tt (TestCycle.sort_tt TestCycle.insertion_sort h)
      ≡ₚ TestCycle.tt h.
Proof.
  exact (cmp_u64_orders_samples TestCycle.insertion_sort
           insertion_sort_contract 3 5
           (TestCycle.Harness (Z.of_nat <$> rev (seq 0 100)) 0) eq_refl).
Defined.

(** ** [test_cycle.c]: the printed byte *)

Section printed_byte.
Import TestCycle.




Lemma byte_of_range (x i : Z) : 0 ≤ byte_of x i < 2 ^ 8.
Proof.
  unfold byte_of. change 0xFF with (Z.ones 8).
  rewrite Z.land_ones by lia. apply Z.mod_pos_bound. lia.
Qed.


End printed_byte.

(** ** [test_cycle.c]: the timed loop *)

Section harness_facts.
Import TestCycle.
Variable clock : nat → Z.


Lemma iteration_eq body i v h :
  iteration clock body i (v, h) =
    (inner body v,
     Harness
       (if (20 <=? i)%nat
        then <[(i - 20)%nat :=
                 u64 (u64 (clock (S (reads h))) - u64 (clock (reads h)))]> (tt h)
        else tt h)
       (S (S (reads h)))).
Proof.
  unfold iteration, core_cycles. cbn [reads tt].
  destruct (20 <=? i)%nat; reflexivity.
Qed.

(** The loop from iteration [i] on, [n] iterations long: what it leaves in
    the multiplied variables, in the read count and in each cell of [tt]. *)
Lemma measure_from body n :
  ∀ i v h r0,
    reads h = (r0 + 2 * i)%nat →
    let s' := for_from i n (iteration clock body) (v, h) in
    s'.1 = for_from i n (λ _, inner body) v
    ∧ reads s'.2 = (r0 + 2 * (i + n))%nat
    ∧ ∀ k,
        tt s'.2 !! k =
          if decide ((i ≤ k + 20 < i + n)%nat ∧ (k < length (tt h))%nat)
          then Some (delta clock r0 (k + 20))
          else tt h !! k.
Proof.
  induction n as [|n IH]; intros i v h r0 Hr; cbn [for_from].
  - cbn zeta. split; [reflexivity|]. split; [cbn; lia|].
    intros k. cbn. rewrite decide_False by lia. reflexivity.
  - rewrite iteration_eq.
    match goal with |- context [for_from (S i) n _ (?v1, ?h1)] =>
      specialize (IH (S i) v1 h1 r0) end.
    cbn [reads tt] in IH. specialize (IH ltac:(lia)).
    cbn zeta in *. destruct IH as (Hv & Hreads & Htt).
    split; [exact Hv|]. split; [lia|].
    intros k. rewrite Htt. clear Htt Hv Hreads.
    destruct (Nat.leb_spec 20 i) as [Hi|Hi].
    + rewrite length_insert, list_lookup_insert.
      repeat case_decide; try lia; try reflexivity.
      destruct_and!. subst k. unfold delta. rewrite Hr.
      replace (i - 20 + 20)%nat with i by lia.
      replace (r0 + 2 * i + 1)%nat with (S (r0 + 2 * i)) by lia.
      reflexivity.
    + repeat case_decide; try lia; reflexivity.
Qed.

(** The whole loop, on the 100 cells of [tt]. *)
Lemma measure_spec body v h :
  length (tt h) = 100%nat →
  measure clock body (v, h) =
    (churn body v,
     Harness (delta clock (reads h) <$> seq 20 100) (reads h + 240)).
Proof.
  intros Hlen. unfold measure, churn.
  destruct (measure_from body 120 0 v h (reads h) ltac:(lia))
    as (Hv & Hreads & Htt).
  destruct (for_from 0 120 _ (v, h)) as [v' [tt' r']].
  cbn [fst snd reads tt] in *. subst v'. f_equal. f_equal; [|lia].
  apply list_eq. intros k. rewrite Htt, list_lookup_fmap.
  destruct (decide (k < 100)%nat) as [Hk|Hk].
  - rewrite decide_True by lia. rewrite lookup_seq_lt by lia.
    cbn. do 2 f_equal. lia.
  - rewrite decide_False by lia. rewrite lookup_seq_ge by lia.
    apply lookup_ge_None_2. lia.
Qed.

End harness_facts.

(** ** [test_cycle.c]: a run of [main] *)

Section run_facts.
Import TestCycle.
Variable clock : nat → Z.
Variable atoi : string → Z.
Variable qsort : (Z → Z → Z) → list Z → list Z.
Variable garbage : nat → Z.

Local Abbreviation run := (run clock qsort garbage).
Local Abbreviation measure := (measure clock).
Local Abbreviation sort_tt := (sort_tt qsort).

(** [run], its three timed loops named. *)
Lemma run_shape (has_int128 : bool) (st : Z) :
  let h0 := Harness (garbage <$> seq 0 100) 0 in
  let s1 := measure body32 (init32 st fresh_vars, h0) in
  let h1 := sort_tt s1.2 in
  let s2 := measure body64 (init64 s1.1, h1) in
  let h2 := sort_tt s2.2 in
  let s3 := measure body128 (init128 s2.1, h2) in
  let h3 := sort_tt s3.2 in
  let line32 := ("32x32->32 muls:  %7.3f" +:+ nl, [ArgDouble (per_op h1 20000)]) in
  let line64 := ("64x64->64 muls:  %7.3f" +:+ nl, [ArgDouble (per_op h2 20000)]) in
  let line128 := ("64x64->128 muls: %7.3f" +:+ nl, [ArgDouble (per_op h3 8000)]) in
  let paren v := ("(%u)" +:+ nl, [ArgUnsigned (final_byte (x64 v))]) in
  run has_int128 st =
    if has_int128
    then Outcome 0 [line32; line64; line128; paren s3.1] [] (reads h3)
                 [tt h1 !!! 50%nat; tt h2 !!! 50%nat; tt h3 !!! 50%nat]
                 (Some (x64 s3.1))
    else Outcome 0 [line32; line64; paren s2.1] [] (reads h2)
                 [tt h1 !!! 50%nat; tt h2 !!! 50%nat]
                 (Some (x64 s2.1)).
Proof.
  cbv zeta. unfold TestCycle.run.
  destruct (measure body32 _) as [v1 h1].
  cbv beta iota zeta. cbn [fst snd].
  destruct (measure body64 _) as [v2 h2].
  cbv beta iota zeta. cbn [fst snd].
  destruct has_int128; [|reflexivity].
  destruct (measure body128 _) as [v3 h3].
  reflexivity.
Qed.

Lemma kept_seq r0 : kept clock r0 = delta clock r0 <$> seq 20 100.
Proof. reflexivity. Qed.

Lemma kept_length r0 : length (kept clock r0) = 100%nat.
Proof. reflexivity. Qed.

Hypothesis qsort_ok : qsort_contract qsort.

(** One timed loop and the sort that follows it. *)
Lemma measure_sort body v h :
  length (tt h) = 100%nat →
  let s := measure body (v, h) in
  s.1 = churn body v
  ∧ tt s.2 = kept clock (reads h)
  ∧ reads s.2 = (reads h + 240)%nat
  ∧ sort_tt s.2 =
      Harness (qsort cmp_u64 (kept clock (reads h))) (reads h + 240)
  ∧ length (tt (sort_tt s.2)) = 100%nat.
Proof.
  intros Hlen. cbv zeta. rewrite (measure_spec clock body v h Hlen).
  cbn [fst snd tt reads]. rewrite <- kept_seq.
  assert (sort_tt (Harness (kept clock (reads h)) (reads h + 240)) =
          Harness (qsort cmp_u64 (kept clock (reads h))) (reads h + 240)) as E.
  { unfold TestCycle.sort_tt. cbn [tt reads].
    rewrite take_ge, drop_ge, app_nil_r by (rewrite kept_length; lia).
    reflexivity. }
  rewrite E. cbn [tt]. repeat split.
  destruct (qsort_cmp_u64 qsort qsort_ok (kept clock (reads h))) as [_ Hp].
  rewrite (Permutation_length Hp). apply kept_length.
Qed.

(** [run], the counter readings and the sorts made explicit. *)
Lemma run_explicit (has_int128 : bool) (st : Z) :
  let v1 := churn body32 (init32 st fresh_vars) in
  let v2 := churn body64 (init64 v1) in
  let v3 := churn body128 (init128 v2) in
  let m r0 := qsort cmp_u64 (kept clock r0) !!! 50%nat in
  medians (run has_int128 st) =
    [m 0%nat; m 240%nat] ++ (if has_int128 then [m 480%nat] else [])
  ∧ counter_reads (run has_int128 st) = (if has_int128 then 720 else 480)%nat
  ∧ last_x64 (run has_int128 st) = Some (x64 (if has_int128 then v3 else v2)).
Proof.
  cbv zeta. rewrite run_shape. cbv zeta.
  set (h0 := Harness (garbage <$> seq 0 100) 0).
  destruct (measure_sort body32 (init32 st fresh_vars) h0 eq_refl)
    as (Hv1 & _ & _ & Hs1 & Hl1).
  rewrite Hv1, Hs1 in *. cbn [reads tt] in *.
  match goal with |- context [measure body64 (?v, ?h)] =>
    destruct (measure_sort body64 v h Hl1) as (Hv2 & _ & _ & Hs2 & Hl2) end.
  rewrite Hv2, Hs2 in *. cbn [reads tt] in *.
  destruct has_int128; [|repeat split].
  match goal with |- context [measure body128 (?v, ?h)] =>
    destruct (measure_sort body128 v h Hl2) as (Hv3 & _ & _ & Hs3 & Hl3) end.
  rewrite Hv3, Hs3. repeat split.
Qed.

End run_facts.


(** *** The claims on the harness and on the output *)

(** C2.  A timed loop reads the counter twice in each of its 120 outer
    iterations, so takes 120 deltas; the 100 cells of [tt] end up holding
    the deltas of iterations 20 to 119, in that order, whatever the first
    20 deltas and the former content of [tt] were; [qsort] rearranges them
    in nondecreasing order, and the value reported is cell 50 (counting
    from 0) of the sorted buffer.  The three medians of a run are obtained
    so, from the readings 0 to 239, 240 to 479 and 480 to 719. *)
Theorem timed_loop_takes_the_median
    (clock : nat → Z) (qsort : (Z → Z → Z) → list Z → list Z)
    (Hqsort : TestCycle.qsort_contract qsort)
    (garbage : nat → Z) (st : Z)
    (body : list TestCycle.stmt) (v : TestCycle.vars) (h : TestCycle.harness)
    (Hlen : length (TestCycle.tt h) = 100%nat) :
  let deltas := TestCycle.delta clock (TestCycle.reads h) <$> seq 0 120 in
  let s := TestCycle.measure clock body (v, h) in
  let sorted := TestCycle.tt (TestCycle.sort_tt qsort s.2) in
  let median r0 := qsort TestCycle.cmp_u64 (TestCycle.kept clock r0) !!! 50%nat in
  length deltas = 120%nat
  ∧ TestCycle.reads s.2 = (TestCycle.reads h + 2 * 120)%nat
  ∧ TestCycle.tt s.2 = drop 20 deltas
  ∧ length (TestCycle.tt s.2) = 100%nat
  ∧ sorted ≡ₚ TestCycle.tt s.2
  ∧ Sorted Z.le sorted
  ∧ (∀ d, TestCycle.per_op (TestCycle.sort_tt qsort s.2) d =
          PrimFloat.div (TestCycle.double_of_u64 (sorted !!! 50%nat)) d)
  ∧ TestCycle.medians (TestCycle.run clock qsort garbage true st) =
      [median 0%nat; median 240%nat; median 480%nat].
Proof.
  cbv zeta.
  destruct (measure_sort clock qsort Hqsort body v h Hlen)
    as (_ & Htt & Hreads & Hsort & _).
  rewrite Hsort, Htt, Hreads. cbn [TestCycle.tt].
  destruct (qsort_cmp_u64 qsort Hqsort (TestCycle.kept clock (TestCycle.reads h)))
    as [Hs Hp].
  repeat split; try assumption.
  apply (run_explicit clock qsort garbage Hqsort true st).
Qed.

Lemma timed_loop_takes_the_median_witness :
  let clock := λ n : nat, Z.of_nat (n * n) in
  let qsort := TestCycle.insertion_sort in
  let h := TestCycle.Harness (replicate 100 7) 4 in
  let deltas := TestCycle.delta clock (TestCycle.reads h) <$> seq 0 120 in
  let s := TestCycle.measure clock TestCycle.body32
             (TestCycle.Vars 3 3 0 0 0 0, h) in
  let sorted := TestCycle.tt (TestCycle.sort_tt qsort s.2) in
  let median r0 := qsort TestCycle.cmp_u64 (TestCycle.kept clock r0) !!! 50%nat in
  length deltas = 120%nat
  ∧ TestCycle.reads s.2 = (TestCycle.reads h + 2 * 120)%nat
  ∧ TestCycle.tt s.2 = drop 20 deltas
  ∧ length (TestCycle.tt s.2) = 100%nat
  ∧ sorted ≡ₚ TestCycle.tt s.2
  ∧ Sorted Z.le sorted
  ∧ (∀ d, TestCycle.per_op (TestCycle.sort_tt qsort s.2) d =
          PrimFloat.div (TestCycle.double_of_u64 (sorted !!! 50%nat)) d)
  ∧ TestCycle.medians (TestCycle.run clock qsort (λ _, 0) true 3) =
      [median 0%nat; median 240%nat; median 480%nat].
Proof.
  exact (timed_loop_takes_the_median
           (λ n : nat, Z.of_nat (n * n)) TestCycle.insertion_sort
           insertion_sort_contract (λ _, 0) 3 TestCycle.body32
           (TestCycle.Vars 3 3 0 0 0 0)
           (TestCycle.Harness (replicate 100 7) 4) eq_refl).
Defined.

Section output_facts.
Import TestCycle.

Lemma divisor_20_muls :
  double_of_u64 (1000 * Z.of_nat (muls body32)) = 20000%float
  ∧ double_of_u64 (1000 * Z.of_nat (muls body64)) = 20000%float.
Proof. split; vm_compute; reflexivity. Qed.

Lemma divisor_8_muls :
  double_of_u64 (1000 * Z.of_nat (muls body128)) = 8000%float.
Proof. vm_compute. reflexivity. Qed.

Lemma cycles_per_op_unfold (m : Z) :
  cycles_per_op m body32 = PrimFloat.div (double_of_u64 m) 20000
  ∧ cycles_per_op m body64 = PrimFloat.div (double_of_u64 m) 20000
  ∧ cycles_per_op m body128 = PrimFloat.div (double_of_u64 m) 8000.
Proof.
  unfold cycles_per_op.
  destruct divisor_20_muls as [-> ->]. rewrite divisor_8_muls.
  repeat split.
Qed.

End output_facts.

(** C7.  When [argc] is not 2 (no argument, or two or more), [main] writes
    the usage line on the error stream and exits with [EXIT_FAILURE], which
    is not zero; it has not read the counter, has no median and has written
    nothing on the standard output. *)
Theorem main_usage_on_bad_argc
    (clock : nat → Z) (atoi : string → Z)
    (qsort : (Z → Z → Z) → list Z → list Z)
    (garbage : nat → Z) (has_int128 : bool)
    (argv : list string) (Hargc : length argv ≠ 2%nat) :
  let o := TestCycle.main clock atoi qsort garbage has_int128 argv in
  TestCycle.stderr o = [("usage: test_cycle [ 0 | 1 | 3 ]" +:+ nl, [])]
  ∧ TestCycle.exit_status o = TestCycle.EXIT_FAILURE
  ∧ TestCycle.exit_status o ≠ 0
  ∧ TestCycle.stdout o = []
  ∧ TestCycle.counter_reads o = 0%nat
  ∧ TestCycle.medians o = [].
Proof.
  cbv zeta. unfold TestCycle.main.
  apply Nat.eqb_neq in Hargc. rewrite Hargc. cbn. repeat split. discriminate.
Qed.

Lemma main_usage_on_bad_argc_witness :
  let o := TestCycle.main (λ n, Z.of_nat n) (λ _, 3) TestCycle.insertion_sort
             (λ _, 0) true ["test_cycle"; "3"; "3"]%string in
  TestCycle.stderr o = [("usage: test_cycle [ 0 | 1 | 3 ]" +:+ nl, [])]
  ∧ TestCycle.exit_status o = TestCycle.EXIT_FAILURE
  ∧ TestCycle.exit_status o ≠ 0
  ∧ TestCycle.stdout o = []
  ∧ TestCycle.counter_reads o = 0%nat
  ∧ TestCycle.medians o = [].
Proof.
  apply (main_usage_on_bad_argc (λ n, Z.of_nat n) (λ _, 3)
           TestCycle.insertion_sort (λ _, 0) true
           ["test_cycle"; "3"; "3"]%string).
  cbn. lia.
Defined.




(** ** [test_cycle.c]: the chains of multiplications *)

Section chain_facts.
Import TestCycle.

Lemma loop_chain_S n chain step v :
  loop_chain (S n) chain step v = chain v ++ loop_chain n chain step (step v).
Proof. reflexivity. Qed.

Lemma exec_block_cons c b v :
  exec_block (c :: b) v = exec_block b (exec_stmt c v).
Proof. reflexivity. Qed.

(** An invariant of the statements of a block holds all along the block. *)
Lemma block_chain_Forall (P : vars → Prop) b :
  (∀ c, c ∈ b → ∀ v, P v → P (exec_stmt c v)) →
  ∀ v, P v → Forall P (block_chain b v) ∧ P (exec_block b v).
Proof.
  induction b as [|c b IH]; intros Hb v Hv.
  - split; [constructor|exact Hv].
  - cbn [block_chain]. rewrite exec_block_cons.
    assert (P (exec_stmt c v)) as Hc by (apply Hb; [left|exact Hv]).
    destruct (IH (λ c' Hc', Hb c' (list_elem_of_further _ _ _ Hc')) _ Hc).
    split; [constructor|]; assumption.
Qed.

Lemma loop_chain_Forall (P : vars → Prop) chain step :
  (∀ v, P v → Forall P (chain v) ∧ P (step v)) →
  ∀ n i v, P v →
    Forall P (loop_chain n chain step v) ∧ P (for_from i n (λ _, step) v).
Proof.
  intros Hstep n. induction n as [|n IH]; intros i v Hv;
    cbn [loop_chain for_from].
  - split; [constructor|exact Hv].
  - destruct (Hstep v Hv) as [Hc Hs]. destruct (IH (S i) _ Hs).
    split; [apply Forall_app_2|]; assumption.
Qed.

Lemma churn_chain_Forall (P : vars → Prop) body :
  (∀ c, c ∈ body → ∀ v, P v → P (exec_stmt c v)) →
  ∀ v, P v → Forall P (churn_chain body v) ∧ P (churn body v).
Proof.
  intros Hb v Hv. unfold churn_chain, churn.
  destruct (loop_chain_Forall P (inner_chain body) (inner body)) with
    (n := 120%nat) (i := 0%nat) (v := v) as [Hc Hf]; [|exact Hv|].
  - intros v' Hv'. unfold inner_chain, inner.
    apply loop_chain_Forall; [|exact Hv'].
    intros v'' Hv''. apply block_chain_Forall; assumption.
  - split; [constructor|]; assumption.
Qed.





Lemma block_chain_length b v : length (block_chain b v) = length b.
Proof.
  revert v. induction b as [|c b IH]; intros v; [reflexivity|].
  cbn [block_chain length]. rewrite IH. reflexivity.
Qed.





(** What the timed loop leaves in the variables does not depend on the
    counter. *)
Lemma measure_vars clock body v h :
  (measure clock body (v, h)).1 = churn body v.
Proof.
  unfold measure, churn.
  apply (measure_from clock body 120 0 v h (reads h)). lia.
Qed.


End chain_facts.

Section seed_facts.
Import TestCycle.


Lemma body64_stmts c : c ∈ body64 → c = X64_mul_Y64 ∨ c = Y64_mul_X64.
Proof.
  unfold body64. intros H.
  repeat (apply elem_of_cons in H as [->|H]; [auto|]).
  inversion H.
Qed.


(** The 32-bit chain, under an invariant of every statement. *)
Lemma chain32_Forall (P : vars → Prop) st :
  (∀ c v, P v → P (exec_stmt c v)) →
  (∀ v, P v → P (x32_gets_y32 v)) →
  P (decl32 st fresh_vars) →
  Forall P (chain32 st) ∧ P (churn body32 (start32 st)).
Proof.
  intros Hstmt Hcopy H0. unfold chain32, start32, init32.
  destruct (loop_chain_Forall P (block_chain [Y32_mul_X32])
              (exec_stmt Y32_mul_X32)) with
    (n := 100%nat) (i := 0%nat) (v := decl32 st fresh_vars) as [Hc Hf];
    [|exact H0|].
  - intros v Hv. split; [|apply Hstmt, Hv].
    repeat constructor. apply Hstmt, Hv.
  - destruct (churn_chain_Forall P body32 (λ c _, Hstmt c) _ (Hcopy _ Hf)).
    split; [|assumption].
    apply Forall_app_2; [constructor|]; assumption.
Qed.

(** *** Seed 0 *)

Lemma exec_stmt_fresh c : exec_stmt c fresh_vars = fresh_vars.
Proof. destruct c; reflexivity. Qed.

Lemma seed0_chain32 :
  Forall (λ v, v = fresh_vars) (chain32 0) ∧ start64 0 = fresh_vars.
Proof.
  destruct (chain32_Forall (λ v, v = fresh_vars) 0) as [Hc Hf].
  - intros c v ->. apply exec_stmt_fresh.
  - intros v ->. reflexivity.
  - reflexivity.
  - split; [exact Hc|]. unfold start64. rewrite Hf. reflexivity.
Qed.

Lemma seed0_chain64 :
  Forall (λ v, v = fresh_vars) (chain64 0) ∧ start128 0 = fresh_vars.
Proof.
  destruct seed0_chain32 as [_ H64]. unfold chain64, start128. rewrite H64.
  destruct (churn_chain_Forall (λ v, v = fresh_vars) body64) with
    (v := fresh_vars) as [Hc Hf]; [|reflexivity|].
  - intros c _ v ->. apply exec_stmt_fresh.
  - rewrite Hf. split; [exact Hc|reflexivity].
Qed.

Lemma seed0_chain128 : Forall (λ v, v = fresh_vars) (chain128 0).
Proof.
  destruct seed0_chain64 as [_ H128]. unfold chain128. rewrite H128.
  apply churn_chain_Forall; [|reflexivity].
  intros c _ v ->. apply exec_stmt_fresh.
Qed.

(** *** Seed 1 *)




End seed_facts.

Section seed3_facts.
Import TestCycle.

Lemma odd_u32 z : Z.odd (u32 z) = Z.odd z.
Proof.
  unfold u32. rewrite <- !Z.bit0_odd. apply Z.mod_pow2_bits_low. lia.
Qed.

Lemma odd_u64 z : Z.odd (u64 z) = Z.odd z.
Proof.
  unfold u64. rewrite <- !Z.bit0_odd. apply Z.mod_pow2_bits_low. lia.
Qed.

Lemma odd_nonzero z : odd z → z ≠ 0.
Proof. intros H ->. discriminate H. Qed.














End seed3_facts.

Section seed_claims.
Import TestCycle.


Lemma all_fresh_zero l :
  Forall (λ v, v = fresh_vars) l →
  all32 (λ z, z = 0) l ∧ all64 (λ z, z = 0) l.
Proof.
  intros H. split; (eapply Forall_impl; [exact H|]); intros v ->;
    split; reflexivity.
Qed.



End seed_claims.



(** * Further properties of the code *)

(** ** [cyccnt.c]: [init], [fini] and their composition *)

Section module_life.

Lemma aarch64_enable_again (s : Aarch64.cpu) (r : Aarch64.sysreg) :
  Aarch64.regs (exec Aarch64.enable_counter (exec Aarch64.enable_counter s)) r
  = Aarch64.regs (exec Aarch64.enable_counter s) r.
Proof.
  rewrite !enable_counter_regs. destruct r; try reflexivity.
  rewrite <- Z.lor_assoc. reflexivity.
Qed.

Lemma riscv_enable_again (s : Riscv.hart) (r : Z) :
  Riscv.csrs (exec Riscv.enable_counter (exec Riscv.enable_counter s)) r
  = Riscv.csrs (exec Riscv.enable_counter s) r.
Proof.
  rewrite !riscv_enable_counter_csrs. case_decide; reflexivity.
Qed.

Lemma on_each_cpu_lookup {S} (f : State S unit) (cpus : list S) i :
  on_each_cpu f cpus !! i = exec f <$> cpus !! i.
Proof. unfold on_each_cpu. apply list_lookup_fmap. Qed.

Lemma on_each_cpu_length {S} (f : State S unit) (cpus : list S) :
  length (on_each_cpu f cpus) = length cpus.
Proof. unfold on_each_cpu. apply length_fmap. Qed.

Lemma ecalls_app t1 t2 :
  Riscv.ecalls (t1 ++ t2) = (Riscv.ecalls t1 + Riscv.ecalls t2)%nat.
Proof. unfold Riscv.ecalls. rewrite filter_app, length_app. reflexivity. Qed.

End module_life.

(** X1.  Loading the module again, with or without an unloading in between,
    leaves every register as one loading does: on either architecture the
    register file after [enable_counter], [disable_counter],
    [enable_counter] is the one after a single [enable_counter], and so it
    is after [enable_counter] twice. *)
Theorem enable_counter_again :
  (∀ (s : Aarch64.cpu) (r : Aarch64.sysreg),
      let on := exec Aarch64.enable_counter s in
      Aarch64.regs (exec Aarch64.enable_counter on) r = Aarch64.regs on r
      ∧ Aarch64.regs
          (exec Aarch64.enable_counter (exec Aarch64.disable_counter on)) r
        = Aarch64.regs on r)
  ∧ (∀ (s : Riscv.hart) (r : Z),
      let on := exec Riscv.enable_counter s in
      Riscv.csrs (exec Riscv.enable_counter on) r = Riscv.csrs on r
      ∧ Riscv.csrs
          (exec Riscv.enable_counter (exec Riscv.disable_counter on)) r
        = Riscv.csrs on r).
Proof.
  split.
  - intros s r on. split; [apply aarch64_enable_again|].
    unfold on. rewrite (enable_counter_regs (exec _ (exec _ s))).
    rewrite disable_counter_regs, !enable_counter_regs.
    destruct r; try reflexivity.
    rewrite <- Z.lor_assoc. reflexivity.
  - intros s r on. split; [apply riscv_enable_again|].
    unfold on.
    rewrite (riscv_enable_counter_csrs (exec _ (exec _ s))).
    rewrite riscv_disable_counter_csrs, !riscv_enable_counter_csrs.
    case_decide; reflexivity.
Qed.

(** X2.  On aarch64, [init] returns 0 and reaches every online CPU, each
    keeping its place and its number.  Each CPU issues, in this order and
    nothing else: the write of bit 31 to the interrupt-clear register, the
    write of bit 31 to the counter-enable-set register, the write to the
    user-enable register of a value with bits 0 and 2 set, the read of the
    control register, the barrier, the write back of the value read with
    bits 0 and 2 set and no other bit changed, and the write of bit 27
    alone to the filter register.  [fini] then issues on each CPU the
    writes of zero to the counter-enable-set and user-enable registers, and
    no other. *)
Theorem aarch64_init_reaches_every_cpu (cpus : list Aarch64.cpu) :
  (Aarch64.init cpus).1 = 0
  ∧ length (Aarch64.init cpus).2 = length cpus
  ∧ length (Aarch64.fini (Aarch64.init cpus).2) = length cpus
  ∧ ∀ i c, cpus !! i = Some c →
      ∃ on off user read back,
        (Aarch64.init cpus).2 !! i = Some on
        ∧ Aarch64.fini (Aarch64.init cpus).2 !! i = Some off
        ∧ Aarch64.cpu_id on = Aarch64.cpu_id c
        ∧ Aarch64.cpu_id off = Aarch64.cpu_id c
        ∧ Aarch64.trace on = Aarch64.trace c ++
            [ Aarch64.Printk ("enable pmccntr_el0 on CPU %d" +:+ nl)
                             [Aarch64.cpu_id c];
              Aarch64.Msr Aarch64.PMINTENCLR_EL1 (BIT 31);
              Aarch64.Msr Aarch64.PMCNTENSET_EL0 (BIT 31);
              Aarch64.Msr Aarch64.PMUSERENR_EL0 user;
              Aarch64.Mrs Aarch64.PMCR_EL0 read;
              Aarch64.Isb;
              Aarch64.Msr Aarch64.PMCR_EL0 back;
              Aarch64.Msr Aarch64.PMCCFILTR_EL0 (BIT 27) ]
        ∧ Z.testbit user 0 = true ∧ Z.testbit user 2 = true
        ∧ (∀ b, 0 ≤ b →
             Z.testbit back b = (Z.testbit read b || (b =? 0) || (b =? 2))%bool)
        ∧ Aarch64.trace off = Aarch64.trace on ++
            [ Aarch64.Printk ("disable pmccntr_el0 on CPU %d" +:+ nl)
                             [Aarch64.cpu_id c];
              Aarch64.Msr Aarch64.PMCNTENSET_EL0 0;
              Aarch64.Msr Aarch64.PMUSERENR_EL0 0 ].
Proof.
  unfold Aarch64.init, Aarch64.fini. cbn [fst snd].
  split; [reflexivity|]. rewrite !on_each_cpu_length.
  split; [reflexivity|]. split; [reflexivity|].
  intros i c Hc.
  exists (exec Aarch64.enable_counter c),
         (exec Aarch64.disable_counter (exec Aarch64.enable_counter c)),
         69, (Aarch64.regs c Aarch64.PMCR_EL0),
         (Z.lor (Aarch64.regs c Aarch64.PMCR_EL0) 5).
  rewrite !on_each_cpu_lookup, Hc. cbn [fmap option_fmap option_map].
  rewrite disable_counter_trace, enable_counter_trace.
  do 7 (split; [reflexivity|]). split; [|reflexivity].
  intros b Hb. rewrite Z.lor_spec, <- orb_assoc. f_equal.
  change 5 with (Z.lor (2 ^ 0) (2 ^ 2)).
  rewrite Z.lor_spec, !Z.pow2_bits_eqb by lia.
  rewrite (Z.eqb_sym 0 b), (Z.eqb_sym 2 b). reflexivity.
Qed.

(** X3.  On RISC-V, [init] returns 0 and reaches every online hart: each
    makes exactly one SBI request and ends with the cycle bit (bit 0) of the
    supervisor counter-enable register set, whatever the firmware answered;
    after [fini] that register holds the timer bit alone, the cycle and the
    instruction bits cleared, and no further SBI request was made: nothing
    asks the firmware to stop the counter that [init] had it start. *)
Theorem riscv_init_reaches_every_hart (harts : list Riscv.hart) :
  (Riscv.init harts).1 = 0
  ∧ length (Riscv.init harts).2 = length harts
  ∧ length (Riscv.fini (Riscv.init harts).2) = length harts
  ∧ ∀ i h, harts !! i = Some h →
      ∃ on off,
        (Riscv.init harts).2 !! i = Some on
        ∧ Riscv.fini (Riscv.init harts).2 !! i = Some off
        ∧ Riscv.cpu_id on = Riscv.cpu_id h
        ∧ Riscv.cpu_id off = Riscv.cpu_id h
        ∧ Z.testbit (Riscv.csrs on Riscv.CSR_SCOUNTEREN) 0 = true
        ∧ Riscv.ecalls (Riscv.trace on) = S (Riscv.ecalls (Riscv.trace h))
        ∧ Riscv.ecalls (Riscv.trace off) = S (Riscv.ecalls (Riscv.trace h))
        ∧ (∀ b, 0 ≤ b →
             Z.testbit (Riscv.csrs off Riscv.CSR_SCOUNTEREN) b = (b =? 1)).
Proof.
  unfold Riscv.init, Riscv.fini. cbn [fst snd].
  split; [reflexivity|]. rewrite !on_each_cpu_length.
  split; [reflexivity|]. split; [reflexivity|].
  intros i h Hh.
  exists (exec Riscv.enable_counter h),
         (exec Riscv.disable_counter (exec Riscv.enable_counter h)).
  rewrite !on_each_cpu_lookup, Hh. cbn [fmap option_fmap option_map].
  rewrite riscv_disable_counter_csrs, riscv_disable_counter_trace,
    riscv_enable_counter_csrs, riscv_enable_counter_trace.
  rewrite !decide_True by reflexivity. rewrite !ecalls_app.
  do 5 (split; [reflexivity|]).
  repeat match goal with
  | |- context [Riscv.ecalls (?e :: ?l)] =>
      let n := eval cbv in (Riscv.ecalls (e :: l)) in
      change (Riscv.ecalls (e :: l)) with n
  end.
  split; [lia|]. split; [lia|].
  intros b Hb. rewrite Z.eqb_sym. apply (Z.pow2_bits_eqb 1 b). lia.
Qed.

(** ** [test_cycle.c]: what the timed loop touches *)

Section loop_frame.
Import TestCycle.
Variable clock : nat → Z.

Lemma length_from_lookup {A} (l1 l2 : list A) :
  (∀ k, is_Some (l1 !! k) ↔ is_Some (l2 !! k)) → length l1 = length l2.
Proof.
  intros H. apply Nat.le_antisymm; apply Nat.nlt_ge; intros Hlt.
  - pose proof (proj1 (H (length l2)) (lookup_lt_is_Some_2 _ _ Hlt)) as Hs.
    apply lookup_lt_is_Some_1 in Hs. lia.
  - pose proof (proj2 (H (length l1)) (lookup_lt_is_Some_2 _ _ Hlt)) as Hs.
    apply lookup_lt_is_Some_1 in Hs. lia.
Qed.

Lemma measure_reads body v h :
  reads (measure clock body (v, h)).2 = (reads h + 240)%nat.
Proof.
  unfold measure.
  destruct (measure_from clock body 120 0 v h (reads h) ltac:(lia))
    as (_ & Hreads & _).
  rewrite Hreads. lia.
Qed.

Lemma measure_lookup body v h k :
  tt (measure clock body (v, h)).2 !! k =
    if decide ((k < 100)%nat ∧ (k < length (tt h))%nat)
    then Some (delta clock (reads h) (k + 20))
    else tt h !! k.
Proof.
  unfold measure.
  destruct (measure_from clock body 120 0 v h (reads h) ltac:(lia))
    as (_ & _ & Htt).
  rewrite Htt. repeat case_decide; try lia; reflexivity.
Qed.

Lemma measure_length body v h :
  length (tt (measure clock body (v, h)).2) = length (tt h).
Proof.
  apply length_from_lookup. intros k. rewrite measure_lookup.
  case_decide as Hk; [|reflexivity].
  split; intros _; [apply lookup_lt_is_Some_2; lia|eexists; reflexivity].
Qed.

Lemma sort_tt_reads qsort h : reads (sort_tt qsort h) = reads h.
Proof. reflexivity. Qed.

Lemma run_counter_reads qsort garbage (has_int128 : bool) st :
  counter_reads (run clock qsort garbage has_int128 st) =
    (if has_int128 then 720 else 480)%nat.
Proof.
  rewrite run_shape. cbv zeta.
  destruct has_int128; cbn [counter_reads];
    rewrite ?sort_tt_reads, ?measure_reads; reflexivity.
Qed.

End loop_frame.

(** X4.  A timed loop reads the counter 240 times and writes cells 0 to 99
    of [tt] and no other: whatever the buffer it is given, the buffer keeps
    its length, and a cell of index 100 or more keeps its content.  What the
    loop leaves in the multiplied variables does not depend on the counter.
    A run reads the counter 480 times, 720 in a build with the 64x64->128
    loop, whatever the seed and the readings. *)
Theorem timed_loop_stays_in_bounds
    (clock : nat → Z) (qsort : (Z → Z → Z) → list Z → list Z)
    (garbage : nat → Z) (has_int128 : bool) (st : Z)
    (body : list TestCycle.stmt) (v : TestCycle.vars) (h : TestCycle.harness) :
  let s := TestCycle.measure clock body (v, h) in
  s.1 = TestCycle.churn body v
  ∧ TestCycle.reads s.2 = (TestCycle.reads h + 240)%nat
  ∧ length (TestCycle.tt s.2) = length (TestCycle.tt h)
  ∧ (∀ k, (100 ≤ k)%nat → TestCycle.tt s.2 !! k = TestCycle.tt h !! k)
  ∧ TestCycle.counter_reads
      (TestCycle.run clock qsort garbage has_int128 st)
    = (if has_int128 then 720 else 480)%nat.
Proof.
  cbv zeta. split; [apply measure_vars|]. split; [apply measure_reads|].
  split; [apply measure_length|]. split; [|apply run_counter_reads].
  intros k Hk. rewrite measure_lookup. apply decide_False. lia.
Qed.

(** X5.  Each sample is the difference of the two readings that bracket the
    inner loop, taken as unsigned 64-bit integers: [end - begin] when the
    counter did not wrap between them, [end - begin + 2^64] when it did.
    Sample [k] of the buffer comes from outer iteration [k + 20]. *)
Theorem samples_are_counter_differences
    (clock : nat → Z) (body : list TestCycle.stmt)
    (v : TestCycle.vars) (h : TestCycle.harness)
    (Hlen : length (TestCycle.tt h) = 100%nat)
    (Hrange : ∀ n, (TestCycle.reads h ≤ n < TestCycle.reads h + 240)%nat →
                   0 ≤ clock n < 2 ^ 64) :
  ∀ k, (k < 100)%nat →
    let begin := clock (TestCycle.reads h + 2 * (k + 20))%nat in
    let end_ := clock (TestCycle.reads h + 2 * (k + 20) + 1)%nat in
    TestCycle.tt (TestCycle.measure clock body (v, h)).2 !! k =
      Some (if begin <=? end_ then end_ - begin else end_ - begin + 2 ^ 64).
Proof.
  intros k Hk. cbv zeta. rewrite measure_lookup.
  rewrite decide_True by lia. f_equal. unfold TestCycle.delta.
  pose proof (Hrange (TestCycle.reads h + 2 * (k + 20))%nat ltac:(lia)) as Hb.
  pose proof (Hrange (TestCycle.reads h + 2 * (k + 20) + 1)%nat ltac:(lia))
    as He.
  unfold TestCycle.u64. rewrite (Z.mod_small _ _ Hb), (Z.mod_small _ _ He).
  destruct (Z.leb_spec (clock (TestCycle.reads h + 2 * (k + 20))%nat)
              (clock (TestCycle.reads h + 2 * (k + 20) + 1)%nat)) as [Hle|Hgt].
  - apply Z.mod_small. lia.
  - rewrite <- (Z.mod_add _ 1 (2 ^ 64)) by lia.
    rewrite Z.mul_1_l. apply Z.mod_small. lia.
Qed.

Lemma samples_are_counter_differences_witness :
  let clock := λ n : nat, (Z.of_nat n * 1000) mod 2 ^ 64 in
  let h := TestCycle.Harness (replicate 100 0) 6 in
  let begin := clock (TestCycle.reads h + 2 * (7 + 20))%nat in
  let end_ := clock (TestCycle.reads h + 2 * (7 + 20) + 1)%nat in
  TestCycle.tt (TestCycle.measure clock TestCycle.body64
                  (TestCycle.fresh_vars, h)).2 !! 7%nat =
    Some (if begin <=? end_ then end_ - begin else end_ - begin + 2 ^ 64).
Proof.
  apply (samples_are_counter_differences
           (λ n : nat, (Z.of_nat n * 1000) mod 2 ^ 64) TestCycle.body64
           TestCycle.fresh_vars (TestCycle.Harness (replicate 100 0) 6)).
  - reflexivity.
  - intros n _. apply Z.mod_pos_bound. reflexivity.
  - lia.
Defined.

(** ** [test_cycle.c]: the median of the samples *)

Section median_facts.
Import TestCycle.

Lemma filter_none {A} (P : A → Prop) `{∀ x, Decision (P x)} (l : list A) :
  (∀ x, x ∈ l → ¬ P x) → filter P l = [].
Proof.
  induction l as [|x l IH]; intros Hl; [reflexivity|].
  rewrite filter_cons_False by (apply Hl; left).
  apply IH. intros y Hy. apply Hl. right. exact Hy.
Qed.

(** Cell 50 of 100 sorted values is one of them, is not above a bound that
    51 of them respect, and is not below a bound that 50 of them reach. *)
Lemma rank50_of_100 (l sorted : list Z) :
  sorted ≡ₚ l → Sorted Z.le sorted → length l = 100%nat →
  sorted !!! 50%nat ∈ l
  ∧ (∀ B, (51 ≤ length (filter (λ x, (x ≤ B)%Z) l))%nat → sorted !!! 50%nat ≤ B)
  ∧ (∀ A, (50 ≤ length (filter (λ x, (A ≤ x)%Z) l))%nat → A ≤ sorted !!! 50%nat).
Proof.
  intros Hp Hs Hlen.
  assert (length sorted = 100%nat) as Hls
    by (rewrite (Permutation_length Hp); exact Hlen).
  set (m := sorted !!! 50%nat).
  assert (sorted !! 50%nat = Some m) as Hm
    by (apply list_lookup_lookup_total_lt; lia).
  pose proof (take_drop_middle _ _ _ Hm) as Hsplit.
  apply Sorted_StronglySorted in Hs; [|apply _].
  rewrite <- Hsplit in Hs.
  apply StronglySorted_app in Hs as (Hlow & _ & Hhigh).
  apply StronglySorted_cons in Hhigh as [Hhigh _].
  rewrite Forall_forall in Hhigh.
  split; [|split].
  - rewrite <- Hp. apply list_elem_of_lookup_2 with 50%nat. exact Hm.
  - intros B HB. destruct (decide (m ≤ B)) as [|Hn]; [assumption|exfalso].
    rewrite <- Hp, <- Hsplit, filter_app, length_app in HB.
    rewrite (filter_none _ (m :: drop 51 sorted)) in HB.
    + pose proof (length_filter (λ x, x ≤ B) (take 50 sorted)) as Hf.
      rewrite length_take in Hf. cbn [length] in HB. lia.
    + intros x [->|Hx]%elem_of_cons; [lia|].
      specialize (Hhigh x Hx). lia.
  - intros A HA. destruct (decide (A ≤ m)) as [|Hn]; [assumption|exfalso].
    rewrite <- Hp, <- Hsplit, filter_app, filter_cons, length_app in HA.
    rewrite (filter_none _ (take 50 sorted)) in HA.
    + rewrite decide_False in HA by lia.
      pose proof (length_filter (λ x, A ≤ x) (drop 51 sorted)) as Hf.
      rewrite length_drop in Hf. cbn [length] in HA. lia.
    + intros x Hx. specialize (Hlow x m Hx ltac:(left)). lia.
Qed.

End median_facts.

(** X6.  The value a timed loop reports resists outliers: it is one of the
    100 samples kept; it is at most [B] as soon as 51 of them are, and at
    least [A] as soon as 50 of them are.  So up to 49 samples, however
    large, do not move it above the others. *)
Theorem reported_median_resists_outliers
    (clock : nat → Z) (qsort : (Z → Z → Z) → list Z → list Z)
    (Hqsort : TestCycle.qsort_contract qsort)
    (body : list TestCycle.stmt) (v : TestCycle.vars) (h : TestCycle.harness)
    (Hlen : length (TestCycle.tt h) = 100%nat) :
  let samples := TestCycle.tt (TestCycle.measure clock body (v, h)).2 in
  let m := TestCycle.tt
             (TestCycle.sort_tt qsort
                (TestCycle.measure clock body (v, h)).2) !!! 50%nat in
  m ∈ samples
  ∧ (∀ B, (51 ≤ length (filter (λ x, (x ≤ B)%Z) samples))%nat → m ≤ B)
  ∧ (∀ A, (50 ≤ length (filter (λ x, (A ≤ x)%Z) samples))%nat → A ≤ m).
Proof.
  cbv zeta.
  destruct (measure_sort clock qsort Hqsort body v h Hlen)
    as (_ & Htt & _ & Hsort & _).
  rewrite Hsort, Htt. cbn [TestCycle.tt].
  destruct (qsort_cmp_u64 qsort Hqsort (TestCycle.kept clock (TestCycle.reads h)))
    as [Hs Hp].
  apply rank50_of_100; [exact Hp|exact Hs|apply kept_length].
Qed.

Lemma reported_median_resists_outliers_witness :
  let clock := λ n : nat, Z.of_nat (n * n) in
  let s := TestCycle.measure clock TestCycle.body32
             (TestCycle.fresh_vars, TestCycle.Harness (replicate 100 7) 0) in
  let samples := TestCycle.tt s.2 in
  let m := TestCycle.tt
             (TestCycle.sort_tt TestCycle.insertion_sort s.2) !!! 50%nat in
  m ∈ samples
  ∧ (∀ B, (51 ≤ length (filter (λ x, (x ≤ B)%Z) samples))%nat → m ≤ B)
  ∧ (∀ A, (50 ≤ length (filter (λ x, (A ≤ x)%Z) samples))%nat → A ≤ m).
Proof.
  exact (reported_median_resists_outliers
           (λ n : nat, Z.of_nat (n * n)) TestCycle.insertion_sort
           insertion_sort_contract TestCycle.body32 TestCycle.fresh_vars
           (TestCycle.Harness (replicate 100 7) 0) eq_refl).
Defined.

(** ** [test_cycle.c]: what a run depends on *)

Section run_dependencies.
Import TestCycle.

Lemma merge_qsort_contract : qsort_contract merge_qsort.
Proof.
  intros cmp Htot _ l. unfold merge_qsort. split.
  - apply merge_sort_Permutation.
  - apply Sorted_merge_sort. intros a b. apply Htot.
Qed.

(** The samples kept depend on the readings of iterations 20 to 119 only. *)
Lemma kept_ext (clock clock' : nat → Z) (r0 : nat) :
  (∀ n, (r0 + 40 ≤ n < r0 + 240)%nat → clock n = clock' n) →
  kept clock r0 = kept clock' r0.
Proof.
  intros H. rewrite !kept_seq. apply list_fmap_ext.
  intros i x Hx. apply list_elem_of_lookup_2, elem_of_seq in Hx.
  unfold delta. rewrite !H by lia. reflexivity.
Qed.

(** Two functions that meet the contract of [qsort] sort alike. *)
Lemma qsort_unique qsort qsort' (l : list Z) :
  qsort_contract qsort → qsort_contract qsort' →
  qsort cmp_u64 l = qsort' cmp_u64 l.
Proof.
  intros Hq Hq'.
  destruct (qsort_cmp_u64 qsort Hq l) as [Hs Hp].
  destruct (qsort_cmp_u64 qsort' Hq' l) as [Hs' Hp'].
  apply (Sorted_unique Z.le); [exact Hs|exact Hs'|].
  rewrite Hp, Hp'. reflexivity.
Qed.

Variable clock : nat → Z.
Variable qsort : (Z → Z → Z) → list Z → list Z.
Variable garbage : nat → Z.
Hypothesis qsort_ok : qsort_contract qsort.

(** [run] in closed form: nothing of the stack, and of the readings only
    the samples kept. *)
Lemma run_closed (has_int128 : bool) (st : Z) :
  let sorted r0 := Harness (qsort cmp_u64 (kept clock r0)) (r0 + 240) in
  let v1 := churn body32 (init32 st fresh_vars) in
  let v2 := churn body64 (init64 v1) in
  let v3 := churn body128 (init128 v2) in
  let line32 :=
    ("32x32->32 muls:  %7.3f" +:+ nl,
     [ArgDouble (per_op (sorted 0%nat) 20000)]) in
  let line64 :=
    ("64x64->64 muls:  %7.3f" +:+ nl,
     [ArgDouble (per_op (sorted 240%nat) 20000)]) in
  let line128 :=
    ("64x64->128 muls: %7.3f" +:+ nl,
     [ArgDouble (per_op (sorted 480%nat) 8000)]) in
  let paren v := ("(%u)" +:+ nl, [ArgUnsigned (final_byte (x64 v))]) in
  run clock qsort garbage has_int128 st =
    if has_int128
    then Outcome 0 [line32; line64; line128; paren v3] [] 720
                 [tt (sorted 0%nat) !!! 50%nat; tt (sorted 240%nat) !!! 50%nat;
                  tt (sorted 480%nat) !!! 50%nat]
                 (Some (x64 v3))
    else Outcome 0 [line32; line64; paren v2] [] 480
                 [tt (sorted 0%nat) !!! 50%nat; tt (sorted 240%nat) !!! 50%nat]
                 (Some (x64 v2)).
Proof.
  cbv zeta. rewrite run_shape. cbv zeta.
  set (h0 := Harness (garbage <$> seq 0 100) 0).
  destruct (measure_sort clock qsort qsort_ok body32
              (init32 st fresh_vars) h0 eq_refl)
    as (Hv1 & _ & _ & Hs1 & Hl1).
  rewrite Hv1, Hs1 in *. cbn [reads tt] in *.
  match goal with |- context [measure clock body64 (?v, ?h)] =>
    destruct (measure_sort clock qsort qsort_ok body64 v h Hl1)
      as (Hv2 & _ & _ & Hs2 & Hl2) end.
  rewrite Hv2, Hs2 in *. cbn [reads tt] in *.
  destruct has_int128; [|reflexivity].
  match goal with |- context [measure clock body128 (?v, ?h)] =>
    destruct (measure_sort clock qsort qsort_ok body128 v h Hl2)
      as (Hv3 & _ & _ & Hs3 & Hl3) end.
  rewrite Hv3, Hs3. reflexivity.
Qed.

End run_dependencies.

Section cycles_per_multiplication.
Import TestCycle.

Lemma exec_block_app b1 b2 v :
  exec_block (b1 ++ b2) v = exec_block b2 (exec_block b1 v).
Proof. unfold exec_block. apply foldl_app. Qed.

(** A loop over a block runs the block's statements, over and over. *)
Lemma for_from_block body n :
  ∀ i v,
    for_from i n (λ _, exec_block body) v
    = exec_block (mjoin (replicate n body)) v.
Proof.
  induction n as [|n IH]; intros i v; [reflexivity|].
  cbn [for_from replicate]. change (mjoin (body :: replicate n body))
    with (body ++ mjoin (replicate n body)).
  rewrite exec_block_app. apply IH.
Qed.

Lemma inner_runs_inner_stmts body v :
  inner body v = exec_block (inner_stmts body) v.
Proof. unfold inner, inner_stmts. apply for_from_block. Qed.

Lemma muls_app b1 b2 : muls (b1 ++ b2) = (muls b1 + muls b2)%nat.
Proof. unfold muls. rewrite filter_app, length_app. reflexivity. Qed.

Lemma muls_replicate body n :
  muls (mjoin (replicate n body)) = (n * muls body)%nat.
Proof.
  induction n as [|n IH]; [reflexivity|].
  cbn [replicate]. change (mjoin (body :: replicate n body))
    with (body ++ mjoin (replicate n body)).
  rewrite muls_app, IH. reflexivity.
Qed.

Lemma muls_inner_stmts body :
  muls (inner_stmts body) = (1000 * muls body)%nat.
Proof. unfold inner_stmts. apply muls_replicate. Qed.

Lemma divisor_of_inner_stmts :
  double_of_u64 (Z.of_nat (muls (inner_stmts body32))) = 20000%float
  ∧ double_of_u64 (Z.of_nat (muls (inner_stmts body64))) = 20000%float
  ∧ double_of_u64 (Z.of_nat (muls (inner_stmts body128))) = 8000%float.
Proof.
  rewrite !muls_inner_stmts. repeat split; vm_compute; reflexivity.
Qed.

End cycles_per_multiplication.

(** Name what the timed loops leave in the variables, so that no tactic
    unfolds them. *)
Ltac forget_churns :=
  repeat match goal with
  | |- context [TestCycle.churn ?b ?v] =>
      let x := fresh "v" in
      generalize (TestCycle.churn b v); intro x
  end.

(** C6.  The floating-point value a run prints for a workload is cell 50
    of the sorted samples of that workload's timed loop (the counter
    differences of its outer iterations 20 to 119), converted to binary64,
    divided by the binary64 value of the number of multiplications that
    one execution of the inner loop performs.  The inner loop runs the
    statements of its body 1000 times over, so that number is 1000 times
    the multiplications of the body: 20 for the 32-bit and for the 64-bit
    loop, 8 for the loop of 64x64->128 products.  The medians a run records
    are these same cells. *)
Theorem run_reports_cycles_per_mul
    (clock : nat → Z) (qsort : (Z → Z → Z) → list Z → list Z)
    (Hqsort : TestCycle.qsort_contract qsort)
    (garbage : nat → Z) (has_int128 : bool) (st : Z) :
  let o := TestCycle.run clock qsort garbage has_int128 st in
  let median r0 := qsort TestCycle.cmp_u64 (TestCycle.kept clock r0) !!! 50%nat in
  let per_mul m body :=
    PrimFloat.div
      (TestCycle.double_of_u64 m)
      (TestCycle.double_of_u64
         (Z.of_nat (TestCycle.muls (TestCycle.inner_stmts body)))) in
  TestCycle.printed_doubles o =
    [ per_mul (median 0%nat) TestCycle.body32;
      per_mul (median 240%nat) TestCycle.body64 ]
    ++ (if has_int128 then [per_mul (median 480%nat) TestCycle.body128] else [])
  ∧ TestCycle.medians o =
      [median 0%nat; median 240%nat]
      ++ (if has_int128 then [median 480%nat] else [])
  ∧ TestCycle.printed_doubles o =
      zip_with TestCycle.cycles_per_op (TestCycle.medians o)
               (TestCycle.workloads has_int128)
  ∧ (∀ body v,
       TestCycle.inner body v
       = TestCycle.exec_block (TestCycle.inner_stmts body) v)
  ∧ (∀ body,
       TestCycle.muls (TestCycle.inner_stmts body)
       = (1000 * TestCycle.muls body)%nat)
  ∧ TestCycle.muls TestCycle.body32 = 20%nat
  ∧ TestCycle.muls TestCycle.body64 = 20%nat
  ∧ TestCycle.muls TestCycle.body128 = 8%nat.
Proof.
  cbv zeta. rewrite (run_closed clock qsort garbage Hqsort has_int128 st).
  cbv zeta. forget_churns.
  destruct divisor_of_inner_stmts as (D32 & D64 & D128).
  rewrite D32, D64, D128.
  split; [|split; [|split; [|split; [|split]]]].
  - destruct has_int128; reflexivity.
  - destruct has_int128; reflexivity.
  - destruct has_int128;
      cbn [TestCycle.printed_doubles TestCycle.stdout TestCycle.medians
           TestCycle.workloads mbind list_bind omap list_omap snd app
           zip_with];
      repeat match goal with
      | |- context [TestCycle.cycles_per_op ?m _] =>
          destruct (cycles_per_op_unfold m) as (-> & -> & ->)
      end; reflexivity.
  - apply inner_runs_inner_stmts.
  - apply muls_inner_stmts.
  - repeat split.
Qed.

Lemma run_reports_cycles_per_mul_witness :
  let clock := λ n : nat, Z.of_nat (n * n) in
  let qsort := TestCycle.insertion_sort in
  let o := TestCycle.run clock qsort (λ _, 0) true 3 in
  let median r0 := qsort TestCycle.cmp_u64 (TestCycle.kept clock r0) !!! 50%nat in
  let per_mul m body :=
    PrimFloat.div
      (TestCycle.double_of_u64 m)
      (TestCycle.double_of_u64
         (Z.of_nat (TestCycle.muls (TestCycle.inner_stmts body)))) in
  TestCycle.printed_doubles o =
    [ per_mul (median 0%nat) TestCycle.body32;
      per_mul (median 240%nat) TestCycle.body64 ]
    ++ [per_mul (median 480%nat) TestCycle.body128]
  ∧ TestCycle.medians o =
      [median 0%nat; median 240%nat] ++ [median 480%nat]
  ∧ TestCycle.printed_doubles o =
      zip_with TestCycle.cycles_per_op (TestCycle.medians o)
               (TestCycle.workloads true)
  ∧ (∀ body v,
       TestCycle.inner body v
       = TestCycle.exec_block (TestCycle.inner_stmts body) v)
  ∧ (∀ body,
       TestCycle.muls (TestCycle.inner_stmts body)
       = (1000 * TestCycle.muls body)%nat)
  ∧ TestCycle.muls TestCycle.body32 = 20%nat
  ∧ TestCycle.muls TestCycle.body64 = 20%nat
  ∧ TestCycle.muls TestCycle.body128 = 8%nat.
Proof.
  exact (run_reports_cycles_per_mul (λ n : nat, Z.of_nat (n * n))
           TestCycle.insertion_sort insertion_sort_contract (λ _, 0) true 3).
Defined.

(** X7.  Nothing a run prints or returns depends on what the stack held
    where [tt] lies, nor on the counter readings of the first 20 outer
    iterations of each timed loop (reads 0 to 39, 240 to 279 and 480 to
    519): two runs that agree on the other readings have the same
    outcome. *)
Theorem run_ignores_warm_up_and_stack
    (clock clock' : nat → Z) (qsort : (Z → Z → Z) → list Z → list Z)
    (Hqsort : TestCycle.qsort_contract qsort)
    (garbage garbage' : nat → Z) (has_int128 : bool) (st : Z)
    (Hclock : ∀ n, (40 ≤ n mod 240)%nat → clock n = clock' n) :
  TestCycle.run clock qsort garbage has_int128 st
  = TestCycle.run clock' qsort garbage' has_int128 st.
Proof.
  rewrite !run_closed by exact Hqsort. cbv zeta.
  assert (∀ r0, (r0 = 0 ∨ r0 = 240 ∨ r0 = 480)%nat →
                TestCycle.kept clock r0 = TestCycle.kept clock' r0) as Hk.
  { intros r0 Hr0. apply kept_ext. intros n Hn. apply Hclock.
    destruct Hr0 as [->|[->| ->]].
    - rewrite Nat.mod_small by lia. lia.
    - replace n with (n - 240 + 1 * 240)%nat by lia.
      rewrite Nat.Div0.mod_add, Nat.mod_small by lia. lia.
    - replace n with (n - 480 + 2 * 240)%nat by lia.
      rewrite Nat.Div0.mod_add, Nat.mod_small by lia. lia. }
  rewrite (Hk 0%nat), (Hk 240%nat), (Hk 480%nat) by auto.
  reflexivity.
Qed.

Lemma run_ignores_warm_up_and_stack_witness :
  TestCycle.run (λ n, Z.of_nat n) TestCycle.insertion_sort (λ _, 0) true 3
  = TestCycle.run (λ n, if (n mod 240 <? 40)%nat then 12345 else Z.of_nat n)
                  TestCycle.insertion_sort (λ i, Z.of_nat i) true 3.
Proof.
  apply (run_ignores_warm_up_and_stack
           (λ n, Z.of_nat n)
           (λ n, if (n mod 240 <? 40)%nat then 12345 else Z.of_nat n)
           TestCycle.insertion_sort insertion_sort_contract).
  intros n Hn. apply Nat.ltb_ge in Hn. rewrite Hn. reflexivity.
Defined.

(** X8.  The outcome of a run does not depend on which sorting algorithm
    the C library's [qsort] is, stable or not: any two that honour the
    contract give the same output and the same medians. *)
Theorem run_whatever_qsort
    (clock : nat → Z) (qsort qsort' : (Z → Z → Z) → list Z → list Z)
    (Hqsort : TestCycle.qsort_contract qsort)
    (Hqsort' : TestCycle.qsort_contract qsort')
    (garbage : nat → Z) (has_int128 : bool) (st : Z) :
  TestCycle.run clock qsort garbage has_int128 st
  = TestCycle.run clock qsort' garbage has_int128 st.
Proof.
  rewrite !run_closed by assumption. cbv zeta.
  rewrite (qsort_unique qsort qsort' (TestCycle.kept clock 0) Hqsort Hqsort'),
    (qsort_unique qsort qsort' (TestCycle.kept clock 240) Hqsort Hqsort'),
    (qsort_unique qsort qsort' (TestCycle.kept clock 480) Hqsort Hqsort').
  reflexivity.
Qed.

Lemma run_whatever_qsort_witness :
  TestCycle.run (λ n, Z.of_nat (n * n)) TestCycle.insertion_sort (λ _, 0) true 3
  = TestCycle.run (λ n, Z.of_nat (n * n)) TestCycle.merge_qsort (λ _, 0) true 3.
Proof.
  exact (run_whatever_qsort (λ n, Z.of_nat (n * n))
           TestCycle.insertion_sort TestCycle.merge_qsort
           insertion_sort_contract merge_qsort_contract (λ _, 0) true 3).
Defined.

(** ** [test_cycle.c]: the seed *)

Section seed_power.
Import TestCycle.

(** [n] times [y32 *= x32]: [y32] is multiplied by the [n]-th power of
    [x32], modulo 2^32. *)
Lemma y32_mul_x32_loop n :
  ∀ i x y a b c d,
    u32 y = y →
    for_from i n (λ _, exec_stmt Y32_mul_X32) (Vars x y a b c d) =
      Vars x (u32 (y * x ^ Z.of_nat n)) a b c d.
Proof.
  induction n as [|n IH]; intros i x y a b c d Hy.
  - cbn [for_from]. rewrite Z.pow_0_r, Z.mul_1_r, Hy. reflexivity.
  - cbn [for_from exec_stmt]. rewrite IH.
    + f_equal. unfold u32. rewrite Z.mul_mod_idemp_l by lia.
      f_equal. rewrite Nat2Z.inj_succ, Z.pow_succ_r by lia. ring.
    + unfold u32. apply Z.mod_mod. lia.
Qed.

Lemma start32_closed st :
  start32 st = Vars (u32 (st ^ 101)) (u32 (st ^ 101)) 0 0 0 0.
Proof.
  unfold start32, init32, decl32, fresh_vars.
  rewrite y32_mul_x32_loop by (unfold u32; apply Z.mod_mod; lia).
  cbn [x32_gets_y32].
  assert (u32 (u32 st * u32 st ^ Z.of_nat 100) = u32 (st ^ 101)) as ->.
  { unfold u32. change (Z.of_nat 100) with 100.
    rewrite <- (Z.mod_pow_l st 101).
    replace 101 with (Z.succ 100) by reflexivity.
    rewrite Z.pow_succ_r by lia. reflexivity. }
  reflexivity.
Qed.

Lemma even_power_vanishes st : Z.even st = true → u32 (st ^ 101) = 0.
Proof.
  intros [k ->]%Z.even_spec. unfold u32.
  rewrite Z.pow_mul_l.
  replace (2 ^ 101 * k ^ 101) with (2 ^ 69 * k ^ 101 * 2 ^ 32)
    by (change (2 ^ 101) with (2 ^ 69 * 2 ^ 32); ring).
  apply Z_mod_mult.
Qed.

Lemma run_by_start32 clock qsort garbage (has_int128 : bool) st st' :
  start32 st = start32 st' →
  run clock qsort garbage has_int128 st
  = run clock qsort garbage has_int128 st'.
Proof.
  unfold start32. intros E. rewrite !run_shape. cbv zeta. rewrite E.
  reflexivity.
Qed.

Lemma chains_by_start32 st st' :
  start32 st = start32 st' →
  churn_chain body32 (start32 st) = churn_chain body32 (start32 st')
  ∧ chain64 st = chain64 st'
  ∧ chain128 st = chain128 st'.
Proof.
  unfold chain64, chain128, start128, start64. intros ->.
  repeat split.
Qed.

Lemma start32_0 : start32 0 = fresh_vars.
Proof. rewrite start32_closed. reflexivity. Qed.

End seed_power.

(** X9.  The 32-bit chain starts from the 101st power of the seed, taken
    modulo 2^32, in both variables, whatever integer the seed is (negative
    ones included). *)
Theorem chain_starts_at_the_101st_power (st : Z) :
  TestCycle.start32 st =
    TestCycle.Vars (TestCycle.u32 (st ^ 101)) (TestCycle.u32 (st ^ 101))
                   0 0 0 0
  ∧ 0 ≤ TestCycle.x32 (TestCycle.start32 st) < 2 ^ 32.
Proof.
  split; [apply start32_closed|].
  rewrite start32_closed. cbn [TestCycle.x32]. unfold TestCycle.u32.
  apply Z.mod_pos_bound. reflexivity.
Qed.

(** X10.  Every even seed is seed 0 over again: its 101st power is a
    multiple of 2^32, so the chains are at 0 from the first timed loop on
    and the run is the run of seed 0, reading for reading. *)
Theorem even_seed_is_seed_0
    (clock : nat → Z) (qsort : (Z → Z → Z) → list Z → list Z)
    (garbage : nat → Z) (has_int128 : bool)
    (st : Z) (Heven : Z.even st = true) :
  TestCycle.start32 st = TestCycle.fresh_vars
  ∧ TestCycle.all32 (λ z, z = 0)
      (TestCycle.churn_chain TestCycle.body32 (TestCycle.start32 st))
  ∧ TestCycle.all64 (λ z, z = 0) (TestCycle.chain64 st)
  ∧ TestCycle.all64 (λ z, z = 0) (TestCycle.chain128 st)
  ∧ TestCycle.run clock qsort garbage has_int128 st
    = TestCycle.run clock qsort garbage has_int128 0.
Proof.
  assert (TestCycle.start32 st = TestCycle.start32 0) as E
    by (rewrite !start32_closed, (even_power_vanishes st Heven),
          (even_power_vanishes 0 eq_refl); reflexivity).
  destruct (chains_by_start32 st 0 E) as (-> & -> & ->). rewrite E.
  destruct seed0_chain32 as [H32 _], seed0_chain64 as [H64 _].
  pose proof seed0_chain128 as H128.
  unfold TestCycle.chain32 in H32. apply Forall_app in H32 as [_ H32].
  apply all_fresh_zero in H32 as [H32 _], H64 as [_ H64], H128 as [_ H128].
  split; [apply start32_0|]. split; [exact H32|]. split; [exact H64|].
  split; [exact H128|].
  apply run_by_start32. exact E.
Qed.

Lemma even_seed_is_seed_0_witness :
  TestCycle.start32 6 = TestCycle.fresh_vars
  ∧ TestCycle.all32 (λ z, z = 0)
      (TestCycle.churn_chain TestCycle.body32 (TestCycle.start32 6))
  ∧ TestCycle.all64 (λ z, z = 0) (TestCycle.chain64 6)
  ∧ TestCycle.all64 (λ z, z = 0) (TestCycle.chain128 6)
  ∧ TestCycle.run (λ n, Z.of_nat n) TestCycle.insertion_sort (λ _, 0) true 6
    = TestCycle.run (λ n, Z.of_nat n) TestCycle.insertion_sort (λ _, 0) true 0.
Proof.
  exact (even_seed_is_seed_0 (λ n, Z.of_nat n) TestCycle.insertion_sort
           (λ _, 0) true 6 eq_refl).
Defined.

Section odd_seeds.
Import TestCycle.
Variable st : Z.
Hypothesis st_odd : Z.odd st = true.

Lemma odd_chain32 :
  all32 odd (chain32 st) ∧ odd (x64 (start64 st)) ∧ odd (y64 (start64 st)).
Proof.
  destruct (chain32_Forall (λ v, odd (x32 v) ∧ odd (y32 v)) st) as [Hc Hf].
  - intros c [] [Hx Hy]; unfold odd in *; cbn in Hx, Hy.
    destruct c; cbn; rewrite ?odd_u32, ?Z.odd_mul, ?Hx, ?Hy; split; reflexivity.
  - intros [] [Hx Hy]; cbn in Hx, Hy. split; assumption.
  - unfold odd, decl32, fresh_vars. cbn [x32 y32].
    rewrite odd_u32. split; exact st_odd.
  - split; [exact Hc|]. unfold start64.
    destruct (churn body32 (start32 st)). destruct Hf as [Hx Hy].
    unfold odd in *; cbn in Hx, Hy. cbn.
    rewrite !odd_u64, !Z.odd_mul, !odd_u64, !Z.odd_mul, !Hx.
    split; reflexivity.
Qed.

Lemma odd_chain64 :
  all64 odd (chain64 st) ∧ odd (x64 (start128 st)) ∧ odd (y64 (start128 st)).
Proof.
  destruct odd_chain32 as (_ & Hx & Hy). unfold chain64, start128.
  destruct (churn_chain_Forall (λ v, odd (x64 v) ∧ odd (y64 v)) body64) with
    (v := start64 st) as [Hc Hf]; [|split; assumption|].
  - intros c Hin [] [Hx' Hy']; unfold odd in *; cbn in Hx', Hy'.
    destruct (body64_stmts c Hin) as [->| ->]; cbn;
      rewrite ?odd_u64, ?Z.odd_mul, ?Hx', ?Hy'; split; reflexivity.
  - split; [exact Hc|].
    destruct (churn body64 (start64 st)). destruct Hf as [Hx' Hy'].
    unfold odd in *; cbn in Hx', Hy'. cbn.
    rewrite <- !Z.bit0_odd, !Z.lor_spec, !Z.bit0_odd, Hx', Hy'.
    split; reflexivity.
Qed.

End odd_seeds.

(** X11.  With an odd seed no multiplication of the 32-bit or of the 64-bit
    chain ever yields 0: every value of the two chains is odd, from the 100
    first multiplications to the end of the timed loops, and the loop of
    64x64->128 products is entered with odd values. *)
Theorem odd_seed_never_reaches_zero (st : Z) (Hodd : Z.odd st = true) :
  TestCycle.all32 (λ z, TestCycle.odd z ∧ z ≠ 0) (TestCycle.chain32 st)
  ∧ TestCycle.all64 (λ z, TestCycle.odd z ∧ z ≠ 0) (TestCycle.chain64 st)
  ∧ TestCycle.odd (TestCycle.x64 (TestCycle.start128 st))
  ∧ TestCycle.odd (TestCycle.y64 (TestCycle.start128 st)).
Proof.
  destruct (odd_chain32 st Hodd) as [H32 _].
  destruct (odd_chain64 st Hodd) as (H64 & Hx & Hy).
  split; [|split; [|split; assumption]].
  - eapply Forall_impl; [exact H32|].
    intros v [? ?]. auto using odd_nonzero.
  - eapply Forall_impl; [exact H64|].
    intros v [? ?]. auto using odd_nonzero.
Qed.

Lemma odd_seed_never_reaches_zero_witness :
  TestCycle.all32 (λ z, TestCycle.odd z ∧ z ≠ 0) (TestCycle.chain32 (-7))
  ∧ TestCycle.all64 (λ z, TestCycle.odd z ∧ z ≠ 0) (TestCycle.chain64 (-7))
  ∧ TestCycle.odd (TestCycle.x64 (TestCycle.start128 (-7)))
  ∧ TestCycle.odd (TestCycle.y64 (TestCycle.start128 (-7))).
Proof. exact (odd_seed_never_reaches_zero (-7) eq_refl). Defined.

(** ** [test_cycle.c]: the loop of 64x64->128 products *)

Section wide_products.
Import TestCycle.

Lemma mulhi_div (a b : Z) :
  0 ≤ a < 2 ^ 64 → 0 ≤ b < 2 ^ 64 →
  mulhi a b = a * b / 2 ^ 64 ∧ 0 ≤ a * b / 2 ^ 64 < 2 ^ 64.
Proof.
  intros Ha Hb.
  assert (0 ≤ a * b < 2 ^ 64 * 2 ^ 64) as Hab by nia.
  assert (0 ≤ a * b / 2 ^ 64 < 2 ^ 64) as Hq.
  { split; [apply Z.div_pos; lia|].
    apply Z.div_lt_upper_bound; lia. }
  split; [|exact Hq]. unfold mulhi, u64.
  change (2 ^ 128) with (2 ^ 64 * 2 ^ 64).
  rewrite (Z.mod_small (a * b)) by exact Hab.
  rewrite Z.shiftr_div_pow2 by lia. apply Z.mod_small. exact Hq.
Qed.

Lemma init128_t64 (y : Z) :
  0 ≤ y →
  u64 (Z.shiftl (if Z.shiftr y 1 =? 0 then 0 else 1) 63)
  = if decide (2 ≤ y) then 2 ^ 63 else 0.
Proof.
  intros Hy. rewrite Z.shiftr_div_pow2 by lia. change (2 ^ 1) with 2.
  case_decide as H2.
  - assert (1 ≤ y / 2) by (apply Z.div_le_lower_bound; lia).
    destruct (Z.eqb_spec (y / 2) 0); [lia|reflexivity].
  - assert (y / 2 = 0) as -> by (apply Z.div_small; lia). reflexivity.
Qed.

End wide_products.

(** X12.  [((unsigned __int128)a * b) >> 64] on 64-bit operands is the
    quotient of the product by 2^64: it fits 64 bits, is at most either
    operand, and is at least 2^62 when both operands have their top bit
    set; an operand below 2 against any other gives 0. *)
Theorem mulhi_is_the_upper_half (a b : Z)
    (Ha : 0 ≤ a < 2 ^ 64) (Hb : 0 ≤ b < 2 ^ 64) :
  TestCycle.mulhi a b = a * b / 2 ^ 64
  ∧ 0 ≤ TestCycle.mulhi a b < 2 ^ 64
  ∧ TestCycle.mulhi a b ≤ a
  ∧ TestCycle.mulhi a b ≤ b
  ∧ (2 ^ 63 ≤ a → 2 ^ 63 ≤ b → 2 ^ 62 ≤ TestCycle.mulhi a b)
  ∧ (a < 2 → TestCycle.mulhi a b = 0).
Proof.
  destruct (mulhi_div a b Ha Hb) as [-> Hq].
  split; [reflexivity|]. split; [exact Hq|].
  split; [|split; [|split]].
  - apply Z.div_le_upper_bound; [lia|]. nia.
  - apply Z.div_le_upper_bound; [lia|]. nia.
  - intros Ha' Hb'. apply Z.div_le_lower_bound; [lia|].
    change (2 ^ 64 * 2 ^ 62) with (2 ^ 63 * 2 ^ 63). nia.
  - intros Ha'. apply Z.div_small. nia.
Qed.

Lemma mulhi_is_the_upper_half_witness :
  TestCycle.mulhi (2 ^ 63 + 5) (2 ^ 64 - 1)
    = (2 ^ 63 + 5) * (2 ^ 64 - 1) / 2 ^ 64
  ∧ 0 ≤ TestCycle.mulhi (2 ^ 63 + 5) (2 ^ 64 - 1) < 2 ^ 64
  ∧ TestCycle.mulhi (2 ^ 63 + 5) (2 ^ 64 - 1) ≤ 2 ^ 63 + 5
  ∧ TestCycle.mulhi (2 ^ 63 + 5) (2 ^ 64 - 1) ≤ 2 ^ 64 - 1
  ∧ (2 ^ 63 ≤ 2 ^ 63 + 5 → 2 ^ 63 ≤ 2 ^ 64 - 1 →
     2 ^ 62 ≤ TestCycle.mulhi (2 ^ 63 + 5) (2 ^ 64 - 1))
  ∧ (2 ^ 63 + 5 < 2 → TestCycle.mulhi (2 ^ 63 + 5) (2 ^ 64 - 1) = 0).
Proof.
  apply (mulhi_is_the_upper_half (2 ^ 63 + 5) (2 ^ 64 - 1));
    vm_compute; split; congruence.
Defined.

Section wide_loop_entry.
Import TestCycle.

Lemma mulhi_0_0 : mulhi 0 0 = 0.
Proof. reflexivity. Qed.

Lemma churn_chain_first_pass body v :
  ∃ rest, churn_chain body v = v :: block_chain body v ++ rest.
Proof.
  unfold churn_chain. rewrite (loop_chain_S 119).
  unfold inner_chain at 1. rewrite (loop_chain_S 999), <- app_assoc.
  eexists. reflexivity.
Qed.

(** One pass over the body of the third loop, from a state in which [x64]
    and [y64] equal [x64orig] and [y64orig]. *)
Lemma body128_from_orig (w : vars) :
  x64orig w = x64 w → y64orig w = y64 w →
  Forall (λ u, x64 u = 0) (block_chain body128 w)
  ∧ exec_block body128 w = Vars (x32 w) (y32 w) 0 0 (x64 w) (y64 w).
Proof.
  destruct w as [a b x y xo yo]. cbn [x64 y64 x64orig y64orig x32 y32].
  intros -> ->. unfold body128, exec_block.
  cbn [block_chain foldl exec_stmt].
  rewrite !Z.lxor_nilpotent, !mulhi_0_0.
  split; [|reflexivity]. repeat constructor.
Qed.

Lemma init128_orig v :
  x64orig (init128 v) = x64 (init128 v)
  ∧ y64orig (init128 v) = y64 (init128 v)
  ∧ x32 (init128 v) = x32 v ∧ y32 (init128 v) = y32 v.
Proof. destruct v. repeat split. Qed.

End wide_loop_entry.

(** X13.  On entry to the third loop the top bit is decided by [y64] alone:
    when [y64] is 2 or more, bit 63 is set in both [x64] and [y64] and no
    other bit changes; when [y64] is 0 or 1, both are left as they are.
    [x64orig] and [y64orig] are the values so obtained. *)
Theorem init128_sets_the_top_bit (v : TestCycle.vars)
    (Hy : 0 ≤ TestCycle.y64 v) :
  let w := TestCycle.init128 v in
  TestCycle.x64orig w = TestCycle.x64 w
  ∧ TestCycle.y64orig w = TestCycle.y64 w
  ∧ (2 ≤ TestCycle.y64 v →
       ∀ i, 0 ≤ i →
         Z.testbit (TestCycle.x64 w) i
           = (Z.testbit (TestCycle.x64 v) i || (i =? 63))%bool
         ∧ Z.testbit (TestCycle.y64 w) i
           = (Z.testbit (TestCycle.y64 v) i || (i =? 63))%bool)
  ∧ (TestCycle.y64 v < 2 →
       TestCycle.x64 w = TestCycle.x64 v ∧ TestCycle.y64 w = TestCycle.y64 v).
Proof.
  cbv zeta. destruct v as [a b x y xo yo].
  cbn [TestCycle.y64 TestCycle.x64] in *.
  unfold TestCycle.init128.
  cbn [TestCycle.x64 TestCycle.y64 TestCycle.x64orig TestCycle.y64orig].
  rewrite (init128_t64 y Hy).
  split; [reflexivity|]. split; [reflexivity|]. split.
  - intros H2 i Hi. rewrite decide_True by exact H2.
    rewrite !Z.lor_spec, (Z.pow2_bits_eqb 63 i) by lia.
    rewrite (Z.eqb_sym 63 i). split; reflexivity.
  - intros H2. rewrite decide_False by lia.
    rewrite !Z.lor_0_r. split; reflexivity.
Qed.

Lemma init128_sets_the_top_bit_witness :
  let v := TestCycle.Vars 0 0 1 5 0 0 in
  let w := TestCycle.init128 v in
  TestCycle.x64orig w = TestCycle.x64 w
  ∧ TestCycle.y64orig w = TestCycle.y64 w
  ∧ (2 ≤ TestCycle.y64 v →
       ∀ i, 0 ≤ i →
         Z.testbit (TestCycle.x64 w) i
           = (Z.testbit (TestCycle.x64 v) i || (i =? 63))%bool
         ∧ Z.testbit (TestCycle.y64 w) i
           = (Z.testbit (TestCycle.y64 v) i || (i =? 63))%bool)
  ∧ (TestCycle.y64 v < 2 →
       TestCycle.x64 w = TestCycle.x64 v ∧ TestCycle.y64 w = TestCycle.y64 v).
Proof.
  apply (init128_sets_the_top_bit (TestCycle.Vars 0 0 1 5 0 0)).
  cbn. lia.
Defined.

(** X14.  Whatever the seed, the first pass over the body of the third
    timed loop multiplies zeros: [x64 ^= x64orig] and [y64 ^= y64orig] find
    the variables equal to their copies, so [x64] is 0 after each of the
    ten statements of that pass, which ends with [x64] and [y64] both 0;
    the exclusive ors of the next pass then restore the entry values. *)
Theorem third_loop_first_pass_is_zero (st : Z) :
  let entry := TestCycle.start128 st in
  let pass := TestCycle.exec_block TestCycle.body128 entry in
  (∃ rest,
      TestCycle.chain128 st =
        entry :: TestCycle.block_chain TestCycle.body128 entry ++ rest)
  ∧ length (TestCycle.block_chain TestCycle.body128 entry) = 10%nat
  ∧ Forall (λ u, TestCycle.x64 u = 0)
           (TestCycle.block_chain TestCycle.body128 entry)
  ∧ TestCycle.x64 pass = 0 ∧ TestCycle.y64 pass = 0
  ∧ TestCycle.x64 (TestCycle.exec_stmt TestCycle.X64_xor_orig pass)
    = TestCycle.x64 entry
  ∧ TestCycle.y64 (TestCycle.exec_stmt TestCycle.Y64_xor_orig pass)
    = TestCycle.y64 entry.
Proof.
  cbv zeta. unfold TestCycle.chain128.
  split; [apply churn_chain_first_pass|].
  split; [apply block_chain_length|].
  unfold TestCycle.start128.
  destruct (init128_orig
              (TestCycle.churn TestCycle.body64 (TestCycle.start64 st)))
    as (Hx & Hy & _).
  destruct (body128_from_orig _ Hx Hy) as [Hzero ->].
  split; [exact Hzero|].
  cbn [TestCycle.x64 TestCycle.y64 TestCycle.exec_stmt].
  rewrite !Z.lxor_0_l. repeat split.
Qed.
